(** * Reactive props of react-conform: [src/utils/rxUtils/createSubscriptions.js]

    A shallow embedding of the reactive-props engine: the tracing
    [subscribe] function, the analysis of a resolver ([analyzeResolver]),
    the props-change observer ([createObserver]) and the orchestrator
    ([createSubscriptions]) with its delegated subscriptions.

    JavaScript values are a small inductive type, Immutable maps are
    insertion-ordered association lists, the plain object [targetsMap] is a
    [gmap], and effectful code runs in a state-and-exception monad whose
    state survives a thrown exception, as a JavaScript heap does. *)

From Stdlib Require Import ZArith List String Ascii Bool Lia.
From stdpp Require Import base option list strings gmap.

#[local] Set Warnings "-register-all".
#[local] Open Scope string_scope.
#[local] Open Scope list_scope.

(** ** JavaScript values *)

(** The values a field-state tree can hold.  [JMap] is an Immutable [Map]
    with string keys, in insertion order.  [JPromise v] is a deferred
    computation that yields [v]: an [async] resolver returns one. *)
Inductive jsval : Type :=
| JUndefined
| JNull
| JBool (b : bool)
| JNum (n : Z)
| JStr (s : string)
| JPromise (v : jsval)
| JMap (entries : list (string * jsval)).

(** [!!v], the truthiness of a value. *)
Definition truthy (v : jsval) : bool :=
  match v with
  | JUndefined | JNull => false
  | JBool b => b
  | JNum n => negb (n =? 0)%Z
  | JStr s => negb (String.eqb s "")
  | JPromise _ | JMap _ => true
  end.

(** [a === b].  Primitives are compared by value.  Immutable collections are
    compared by reference in JavaScript; a persistent collection is
    identified here with its content, so two structurally equal maps are
    taken to be the same object. *)
Fixpoint strictEq (a b : jsval) {struct a} : bool :=
  match a, b with
  | JUndefined, JUndefined => true
  | JNull, JNull => true
  | JBool x, JBool y => Bool.eqb x y
  | JNum x, JNum y => (x =? y)%Z
  | JStr x, JStr y => String.eqb x y
  | JPromise x, JPromise y => strictEq x y
  | JMap xs, JMap ys =>
      (fix entriesEq (xs ys : list (string * jsval)) {struct xs} : bool :=
         match xs, ys with
         | [], [] => true
         | (k, x) :: xs', (l, y) :: ys' =>
             String.eqb k l && strictEq x y && entriesEq xs' ys'
         | _, _ => false
         end) xs ys
  | _, _ => false
  end.

(** ** Immutable.Map (version 3 semantics) *)

Module Immutable.

(** [Map.get(key, NOT_SET)] on the entries of a map. *)
Fixpoint lookup (key : string) (entries : list (string * jsval)) : option jsval :=
  match entries with
  | [] => None
  | (k, v) :: rest => if String.eqb k key then Some v else lookup key rest
  end.

(** [Map.set(key, value)]: an existing key keeps its position. *)
Fixpoint set (key : string) (value : jsval) (entries : list (string * jsval))
  : list (string * jsval) :=
  match entries with
  | [] => [(key, value)]
  | (k, v) :: rest =>
      if String.eqb k key then (k, value) :: rest
      else (k, v) :: set key value rest
  end.

(** [collection.has(key)].  [None] stands for the [TypeError] that calling
    [.has] on a value that is not a collection raises. *)
Definition has (m : jsval) (key : string) : option bool :=
  match m with
  | JMap entries => Some (bool_decide (is_Some (lookup key entries)))
  | _ => None
  end.

(** The loop of [getIn(searchKeyPath, NOT_SET)]:
    [nested = nested && nested.get ? nested.get(key, NOT_SET) : NOT_SET].
    [None] is the [NOT_SET] sentinel. *)
Fixpoint getInFrom (nested : jsval) (keyPath : list string) : option jsval :=
  match keyPath with
  | [] => Some nested
  | key :: rest =>
      match nested with
      | JMap entries =>
          match lookup key entries with
          | Some v => getInFrom v rest
          | None => None
          end
      | _ => None
      end
  end.

(** [fields.getIn(keyPath)] *)
Definition getIn (fields : jsval) (keyPath : list string) : jsval :=
  default JUndefined (getInFrom fields keyPath).

(** [fields.hasIn(keyPath)], that is [getIn(keyPath, NOT_SET) !== NOT_SET]. *)
Definition hasIn (fields : jsval) (keyPath : list string) : bool :=
  bool_decide (is_Some (getInFrom fields keyPath)).

(** [updateInDeepMap(existing, keyPath, NOT_SET, () => value)], the body
    of [setIn].  [existing = None] is [NOT_SET]; the result [None] is the
    ['invalid keyPath'] invariant failing on a value that has no [.set]. *)
Fixpoint updateInDeepMap (existing : option jsval) (keyPath : list string)
    (value : jsval) : option jsval :=
  match keyPath with
  | [] => Some value
  | key :: rest =>
      match existing with
      | None =>
          nextUpdated ← updateInDeepMap None rest value;
          Some (JMap [(key, nextUpdated)])
      | Some (JMap entries) =>
          nextUpdated ← updateInDeepMap (lookup key entries) rest value;
          Some (JMap (set key nextUpdated entries))
      | Some _ => None
      end
  end.

(** [fields.setIn(keyPath, value)] *)
Definition setIn (fields : jsval) (keyPath : list string) (value : jsval)
  : option jsval :=
  updateInDeepMap (Some fields) keyPath value.

End Immutable.

(** ** Strings: [Array.prototype.join] and [String.prototype.split] *)

(** [segments.join('.')] *)
Definition join (segments : list string) : string := String.concat "." segments.

(** [s.split('.')]: never empty, [''.split('.')] is [['']]. *)
Fixpoint split (s : string) : list string :=
  match s with
  | EmptyString => [EmptyString]
  | String c rest =>
      if Ascii.eqb c "."%char then EmptyString :: split rest
      else match split rest with
           | [] => [String c EmptyString]
           | word :: words => String c word :: words
           end
  end.

(** ** Exceptions and the state monad *)

Inductive Exn : Type :=
| TypeError          (* a method called on a value that lacks it *)
| InvalidKeyPathError (* Immutable's invariant in setIn *)
| ResolverError.     (* thrown by the user's resolver *)

Inductive Outcome (A : Type) : Type :=
| Ok (a : A)
| Thrown (e : Exn).
Arguments Ok {A} a.
Arguments Thrown {A} e.

(** A computation over a heap [S]: the heap is returned even when the
    computation throws. *)
Definition M (S A : Type) : Type := S → Outcome A * S.

Definition ret {S A} (a : A) : M S A := λ s, (Ok a, s).

Definition bind {S A B} (m : M S A) (k : A → M S B) : M S B :=
  λ s, match m s with
       | (Ok a, s') => k a s'
       | (Thrown e, s') => (Thrown e, s')
       end.

Definition throw {S A} (e : Exn) : M S A := λ s, (Thrown e, s).

Definition gets {S A} (f : S → A) : M S A := λ s, (Ok (f s), s).

Definition modify {S} (f : S → S) : M S unit := λ s, (Ok tt, f s).

#[global] Instance M_ret S : MRet (M S) := λ A, @ret S A.
#[global] Instance M_bind S : MBind (M S) := λ A B k m, @bind S A B m k.

(** [list.forEach(body)] *)
Fixpoint forEach {S A} (items : list A) (body : A → M S unit) : M S unit :=
  match items with
  | [] => ret tt
  | item :: rest => bind (body item) (λ _, forEach rest body)
  end.

(** ** Fields, resolvers and the form *)

(** The props of the subscriber field that the engine reads: the entries
    ['fieldPath'] and ['valuePropName'] of the Immutable map are kept as
    typed fields, [props] holds its other plain entries. *)
Record FieldProps : Type := {
  fieldPath : list string;
  valuePropName : string;
  props : list (string * jsval);
}.

(** [fieldProps.get(propName)] for a plain entry. *)
Definition fieldProps_get (fieldProps : FieldProps) (propName : string) : jsval :=
  default JUndefined (Immutable.lookup propName (props fieldProps)).

(** What a resolver is called with, next to [subscribe]. *)
Record ResolverArgs : Type := {
  arg_fieldProps : FieldProps;
  arg_plain : bool;        (* [fieldProps.toJS()] was passed, not the map *)
  arg_formFields : jsval;  (* [form.state.fields] at the time of the call *)
  arg_context : jsval;     (* [form.context] *)
}.

(** A run of a resolver: it returns, throws, or calls [subscribe] with a
    key path and goes on with the value it got back. *)
Inductive Resolution : Type :=
| Return (value : jsval)
| Subscribe (keyPath : list string) (next : jsval → Resolution)
| Raise.

Definition Resolver : Type := ResolverArgs → Resolution.

Inductive Diagnostic : Type :=
| InvalidKeyPath (rxPropName subscriberPath keyPath : string)
| InvalidPropName (rxPropName subscriberPath propName : string).

Inductive LogEntry : Type :=
| LogInitialValue (initialValue : jsval)  (* console.log({ initialValue }) *)
| LogDelegatedAnalysis.                   (* console.log('Delegated analyzis') *)

(** What the engine does to the outside, in the order it does it. *)
Inductive Effect : Type :=
| Warned (d : Diagnostic)
| Logged (entry : LogEntry)
| Dispatched (tracking : bool) (boundFields : jsval) (args : ResolverArgs)
| UpdateFieldCalled (fieldPath : list string) (propName : string) (value : jsval)
| ValidateFieldCalled (force : bool) (fieldPath : list string)
    (fieldProps : jsval) (forceProps : bool) (fields : jsval)
| Unsubscribed (id : nat)
| Rejected (e : Exn).   (* an unhandled promise rejection *)

(** A live subscription of the form's event emitter.  Each one carries what
    its handler closes over. *)
Inductive Subscription : Type :=
| ChangeObserver (targetPath : list string) (targetProps : option (list string))
    (rxPropName : string) (resolver : Resolver) (fieldProps : FieldProps)
| DelegatedSubscription (eventName : string) (targetPath : list string)
    (gluedPath : string) (rxPropName : string) (resolver : Resolver)
    (fieldProps : FieldProps).

(** The form and its surroundings. *)
Record World : Type := {
  state_fields : jsval;                       (* form.state.fields *)
  context : jsval;                            (* form.context *)
  subscriptions : list (nat * Subscription);  (* by subscription identity *)
  next_id : nat;
  trace : list Effect;
}.

Definition emitEffect (e : Effect) : M World unit :=
  modify (λ w, {| state_fields := state_fields w; context := context w;
                  subscriptions := subscriptions w; next_id := next_id w;
                  trace := trace w ++ [e] |}).

(** The world after some more effects. *)
Definition addTrace (es : list Effect) (w : World) : World :=
  {| state_fields := state_fields w; context := context w;
     subscriptions := subscriptions w; next_id := next_id w;
     trace := trace w ++ es |}.

(** Modelled from the spec: [warn] ([../warn]) is not among the sources.
    Per 4.1 and 7 it logs the diagnostic when the condition it is given does
    not hold, and does nothing else. *)
Definition warn (condition : bool) (d : Diagnostic) : M World unit :=
  if condition then ret tt else emitEffect (Warned d).

(** ** The tracing subscriber *)

(** [generateSubscribe(fields, callback)] *)
Definition generateSubscribe {S} (fields : jsval)
    (callback : option (list string → M S jsval)) : list string → M S jsval :=
  λ keyPath,
    shouldResolve ← match callback with
                    | Some cb => cb keyPath
                    | None => ret (JBool true)
                    end;
    if negb (truthy shouldResolve) then ret JUndefined
    else ret (Immutable.getIn fields keyPath).

(** Runs a resolver with the given [subscribe]. *)
Fixpoint invoke {S} (subscribe : list string → M S jsval) (r : Resolution)
  : M S jsval :=
  match r with
  | Return value => ret value
  | Subscribe keyPath next => value ← subscribe keyPath; invoke subscribe (next value)
  | Raise => throw ResolverError
  end.

(** Modelled from the spec: [dispatch] ([../dispatch]) is not among the
    sources.  Per 4.2 it invokes the resolver once with
    [{ subscribe, fieldProps, form }] and hands back what it returns; an
    error thrown by the resolver propagates. *)
Definition dispatch {S} (resolver : Resolver) (subscribe : list string → M S jsval)
    (args : ResolverArgs) : M S jsval :=
  invoke subscribe (resolver args).

(** ** The dependency analyzer *)

(** The heap of one analysis: the local [targetsMap] and the world.
    [targetsMap] is a plain object used as a map from glued paths to lists
    of prop names; its keys are taken not to name a member of
    [Object.prototype]. *)
Record Analysis : Type := {
  targetsMap : gmap string (list string);
  world : World;
}.

Definition liftWorld {A} (m : M World A) : M Analysis A :=
  λ a, match m (world a) with
       | (r, w) => (r, {| targetsMap := targetsMap a; world := w |})
       end.

Definition setTargets (gluedPath : string) (nextProps : list string) : M Analysis unit :=
  modify (λ a, {| targetsMap := <[gluedPath := nextProps]> (targetsMap a);
                  world := world a |}).

(** [prevProps.includes(propName)] *)
Definition includes (propName : string) (prevProps : list string) : bool :=
  existsb (String.eqb propName) prevProps.

(** The callback that [analyzeResolver] gives to [generateSubscribe]. *)
Definition analyzeCallback (rxPropName subscriberPath : string) (fields : jsval)
    (keyPath : list string) : M Analysis jsval :=
  let keyPathLength := length keyPath in
  let isValidKeyPath := (1 <? keyPathLength)%nat in
  liftWorld (warn isValidKeyPath
               (InvalidKeyPath rxPropName subscriberPath (join keyPath)));;
  if negb isValidKeyPath then ret JUndefined else
  let fieldPath := take (keyPathLength - 1) keyPath in
  let propName := nth (keyPathLength - 1) keyPath "" in
  isValidPropName ←
    (if Immutable.hasIn fields fieldPath
     then match Immutable.has (Immutable.getIn fields fieldPath) propName with
          | Some b => ret b
          | None => throw TypeError
          end
     else ret true);
  liftWorld (warn isValidPropName
               (InvalidPropName rxPropName subscriberPath propName));;
  if negb isValidPropName then ret JUndefined else
  let gluedPath := join fieldPath in
  prevProps ← gets (λ a, default [] (targetsMap a !! gluedPath));
  if includes propName prevProps then ret JUndefined else
  let nextProps := prevProps ++ [propName] in
  setTargets gluedPath nextProps;;
  ret (JBool true).

(** The [subscribe] of an analysis. *)
Definition analysisSubscribe (rxPropName : string) (fieldProps : FieldProps)
    (fields : jsval) : list string → M Analysis jsval :=
  generateSubscribe fields
    (Some (analyzeCallback rxPropName (join (fieldPath fieldProps)) fields)).

(** [analyzeResolver({ rxPropName, resolver, fieldProps, fields, form })] *)
Definition analyzeResolver (rxPropName : string) (resolver : Resolver)
    (fieldProps : FieldProps) (fields : jsval)
  : M World (gmap string (list string) * jsval) :=
  λ w,
    let args := {| arg_fieldProps := fieldProps; arg_plain := false;
                   arg_formFields := state_fields w; arg_context := context w |} in
    let run :=
      liftWorld (emitEffect (Dispatched true fields args));;
      dispatch resolver (analysisSubscribe rxPropName fieldProps fields) args in
    match run {| targetsMap := ∅; world := w |} with
    | (Ok initialValue, a) => (Ok (targetsMap a, initialValue), world a)
    | (Thrown e, a) => (Thrown e, world a)
    end.

(** ** The form's collaborators *)

(** What the engine calls and this file does not define.  [camelize]
    ([../camelize]) turns the segments of a path into an event name.
    [updateField] stands for [form.updateField({ fieldPath, propsPatch })]:
    in the world it is called in, for a field path and a patch
    [{ [propName]: value }], it gives the [nextFieldProps] that the returned
    promise resolves with. *)
Record Collaborators : Type := {
  camelize : list string → string;
  updateField : World → list string → string → jsval → jsval;
}.

(** A subscriber field: its props, and [fieldProps.get('reactiveProps')],
    the resolver of each reactive prop ([None] when the field has none). *)
Record Subscriber : Type := {
  ownProps : FieldProps;
  reactiveProps : option (list (string * Resolver));
}.

(** What a change observer is handed: [{ nextContextProps, shouldValidate }],
    where an absent [shouldValidate] is [JUndefined]. *)
Record ChangeEvent : Type := {
  nextContextProps : jsval;
  shouldValidate : jsval;
}.

(** [new Subscription]: the subscription joins the emitter's listeners under
    a fresh identity, which is returned. *)
Definition addSubscription (s : Subscription) : M World nat :=
  λ w, (Ok (next_id w),
        {| state_fields := state_fields w; context := context w;
           subscriptions := subscriptions w ++ [(next_id w, s)];
           next_id := S (next_id w); trace := trace w |}).

(** [subscription.unsubscribe()] *)
Definition unsubscribe (id : nat) : M World unit :=
  modify (λ w, {| state_fields := state_fields w; context := context w;
                  subscriptions :=
                    filter (λ entry, entry.1 ≠ id) (subscriptions w);
                  next_id := next_id w; trace := trace w |});;
  emitEffect (Unsubscribed id).

(** Whether the subscription is still open. *)
Definition isSubscribed (id : nat) (w : World) : bool :=
  bool_decide (id ∈ (subscriptions w).*1).

(** An [async] function never throws to its caller: what its body throws
    rejects the promise it returned, which nothing here handles.  The part
    of the body after an [await] is run at once; other handlers are not
    interleaved with it. *)
Definition async (body : M World unit) : M World unit :=
  λ w, match body w with
       | (Ok _, w') => (Ok tt, w')
       | (Thrown e, w') => (Ok tt, addTrace [Rejected e] w')
       end.

(** ** The change observer *)

(** The [predicate] option that [createObserver] gives to
    [addPropsObserver], on the entries of the two snapshots. *)
Definition predicate (propName : string)
    (prevContextProps nextContextProps : list (string * jsval)) : bool :=
  negb (strictEq
          (default JUndefined (Immutable.lookup propName prevContextProps))
          (default JUndefined (Immutable.lookup propName nextContextProps))).

(** The [getNextValue] option. *)
Definition getNextValue (propName : string)
    (nextContextProps : list (string * jsval)) : jsval :=
  default JUndefined (Immutable.lookup propName nextContextProps).

(** The function that [createObserver] subscribes with. *)
Definition observerHandler (E : Collaborators) (targetPath : list string)
    (rxPropName : string) (resolver : Resolver) (fieldProps : FieldProps)
    (event : ChangeEvent) : M World unit :=
  async (
    let subscriberPath := fieldPath fieldProps in
    let shouldValidate :=
      match shouldValidate event with
      | JUndefined => JBool true
      | given => given
      end in
    fields ← gets state_fields;
    nextFields ←
      match Immutable.setIn fields targetPath (nextContextProps event) with
      | Some updated => ret updated
      | None => throw InvalidKeyPathError
      end;
    ctx ← gets context;
    let args := {| arg_fieldProps := fieldProps; arg_plain := true;
                   arg_formFields := fields; arg_context := ctx |} in
    emitEffect (Dispatched false nextFields args);;
    nextPropValue ← dispatch resolver (generateSubscribe nextFields None) args;
    emitEffect (UpdateFieldCalled subscriberPath rxPropName nextPropValue);;
    updatedFieldProps ←
      gets (λ w, updateField E w subscriberPath rxPropName nextPropValue);
    if truthy shouldValidate
    then emitEffect (ValidateFieldCalled true subscriberPath updatedFieldProps
                       true nextFields)
    else ret tt).

(** [createObserver({ targetPath, targetProps, rxPropName, resolver,
    fieldProps, form })].  [targetProps] is [None] when the caller read it
    from a [targetsMap] that has no such key. *)
Definition createObserver (targetPath : list string)
    (targetProps : option (list string)) (rxPropName : string)
    (resolver : Resolver) (fieldProps : FieldProps) : M World Subscription :=
  let observer :=
    ChangeObserver targetPath targetProps rxPropName resolver fieldProps in
  addSubscription observer;;
  ret observer.

(** [subscription.next(event)]: the subscriber runs its handler. *)
Definition next (E : Collaborators) (subscription : Subscription)
    (event : ChangeEvent) : M World unit :=
  match subscription with
  | ChangeObserver targetPath _ rxPropName resolver fieldProps =>
      observerHandler E targetPath rxPropName resolver fieldProps event
  | DelegatedSubscription _ _ _ _ _ _ => ret tt
  end.

(** Modelled from the spec: [addPropsObserver] ([./addPropsObserver]) is not
    among the sources.  Per 4.4 it is a change listener scoped to the target
    field path and the set of target prop names; a change of the target's
    props qualifies when the predicate holds of one of these names.  Per
    4.5 (3) the observer is made from whatever list results, and one that
    tracks no name is inert. *)
Definition qualifies (targetProps : option (list string))
    (prevContextProps nextContextProps : list (string * jsval)) : bool :=
  existsb (λ propName, predicate propName prevContextProps nextContextProps)
    (default [] targetProps).

(** ** Delegated subscriptions *)

(** The function that listens for the registration of a target field. *)
Definition delegatedHandler (E : Collaborators) (id : nat)
    (targetPath : list string) (gluedPath : string) (rxPropName : string)
    (resolver : Resolver) (fieldProps : FieldProps) (delegatedField : jsval)
  : M World unit :=
  unsubscribe id;;
  emitEffect (Logged LogDelegatedAnalysis);;
  nextFields ← gets state_fields;
  analysis ← analyzeResolver rxPropName resolver fieldProps nextFields;
  let targetProps := analysis.1 !! gluedPath in
  let shouldValidate :=
    truthy (fieldProps_get fieldProps (valuePropName fieldProps)) in
  subscription ←
    createObserver targetPath targetProps rxPropName resolver fieldProps;
  next E subscription {| nextContextProps := delegatedField;
                         shouldValidate := JBool shouldValidate |}.

(** ** The orchestrator *)

(** [Object.keys(targetsMap)], in an order that is left open. *)
Definition keys (tm : gmap string (list string)) : list string :=
  (map_to_list tm).*1.

(** The body of [targetsPaths.forEach]. *)
Definition wireTarget (E : Collaborators) (fields : jsval)
    (rxPropName : string) (resolver : Resolver) (fieldProps : FieldProps)
    (tm : gmap string (list string)) (gluedPath : string) : M World unit :=
  let targetPath := split gluedPath in
  let isTargetMounted := Immutable.hasIn fields targetPath in
  if isTargetMounted then
    let targetProps := tm !! gluedPath in
    createObserver targetPath targetProps rxPropName resolver fieldProps;;
    ret tt
  else
    let fieldRegisteredEvent := camelize E (targetPath ++ ["registered"]) in
    addSubscription
      (DelegatedSubscription fieldRegisteredEvent targetPath gluedPath
         rxPropName resolver fieldProps);;
    ret tt.

(** The body of [rxProps.forEach]. *)
Definition wireReactiveProp (E : Collaborators) (fieldProps : FieldProps)
    (fields : jsval) (entry : string * Resolver) : M World unit :=
  let rxPropName := entry.1 in
  let resolver := entry.2 in
  analysis ← analyzeResolver rxPropName resolver fieldProps fields;
  let tm := analysis.1 in
  let initialValue := analysis.2 in
  emitEffect (Logged (LogInitialValue initialValue));;
  emitEffect (UpdateFieldCalled (fieldPath fieldProps) rxPropName initialValue);;
  let targetsPaths := keys tm in
  if (length targetsPaths =? 0)%nat then ret tt else
  forEach targetsPaths (wireTarget E fields rxPropName resolver fieldProps tm).

(** [createSubscriptions({ fieldProps, fields, form })] *)
Definition createSubscriptions (E : Collaborators) (subscriber : Subscriber)
    (fields : jsval) : M World unit :=
  match reactiveProps subscriber with
  | None => ret tt
  | Some rxProps =>
      forEach rxProps (wireReactiveProp E (ownProps subscriber) fields)
  end.

(** ** The event emitter and the form's life *)

(** [form.eventEmitter.emit(eventName, payload)]: the listeners of the event
    are called in turn; one that has unsubscribed in the meantime is
    skipped. *)
Definition emit (E : Collaborators) (eventName : string) (payload : jsval)
  : M World unit :=
  listeners ← gets subscriptions;
  forEach listeners (λ entry,
    match entry.2 with
    | DelegatedSubscription event targetPath gluedPath rxPropName resolver
        fieldProps =>
        active ← gets (isSubscribed entry.1);
        if String.eqb event eventName && active
        then delegatedHandler E entry.1 targetPath gluedPath rxPropName
               resolver fieldProps payload
        else ret tt
    | ChangeObserver _ _ _ _ _ => ret tt
    end).

(** Modelled from the spec: the scope of the listener that
    [addPropsObserver] makes (4.4).  A subscription is handed the change of
    the props of the field at [targetPath] from one snapshot to the next when
    it is a change observer of that field and the change qualifies. *)
Definition receives (subscription : Subscription) (targetPath : list string)
    (prevContextProps nextContextProps : list (string * jsval)) : bool :=
  match subscription with
  | ChangeObserver observed targetProps _ _ _ =>
      bool_decide (observed = targetPath)
      && qualifies targetProps prevContextProps nextContextProps
  | DelegatedSubscription _ _ _ _ _ _ => false
  end.

(** Modelled from the spec: the delivery of a change by the observable of
    [addPropsObserver] (4.4).  The props of the field at [targetPath]
    changed: every subscription that receives the change is handed the next
    snapshot and the [shouldValidate] of the change. *)
Definition propsChange (E : Collaborators) (targetPath : list string)
    (prevContextProps nextContextProps : list (string * jsval))
    (shouldValidate : jsval) : M World unit :=
  listeners ← gets subscriptions;
  forEach listeners (λ entry,
    if receives entry.2 targetPath prevContextProps nextContextProps
    then next E entry.2 {| nextContextProps := JMap nextContextProps;
                           shouldValidate := shouldValidate |}
    else ret tt).

(** What happens to a form. *)
Inductive FormEvent : Type :=
| FieldsReplaced (fields : jsval)
| SubscriberRegistered (subscriber : Subscriber) (fields : jsval)
| Emitted (eventName : string) (payload : jsval)
| PropsChanged (targetPath : list string)
    (prevContextProps nextContextProps : list (string * jsval))
    (shouldValidate : jsval).

Definition react (E : Collaborators) (event : FormEvent) : M World unit :=
  match event with
  | FieldsReplaced fields =>
      modify (λ w, {| state_fields := fields; context := context w;
                      subscriptions := subscriptions w; next_id := next_id w;
                      trace := trace w |})
  | SubscriberRegistered subscriber fields =>
      createSubscriptions E subscriber fields
  | Emitted eventName payload => emit E eventName payload
  | PropsChanged targetPath prevContextProps nextContextProps shouldValidate =>
      propsChange E targetPath prevContextProps nextContextProps shouldValidate
  end.

(** The world after a sequence of events; an exception that reaches the
    host ends the event it was thrown in, and the form lives on. *)
Definition reactAll (E : Collaborators) (events : list FormEvent) (w : World)
  : World :=
  foldl (λ w event, (react E event w).2) w events.

(** A form before anything has subscribed. *)
Definition newForm (fields ctx : jsval) : World :=
  {| state_fields := fields; context := ctx; subscriptions := [];
     next_id := 0; trace := [] |}.

(** ** Notions used in the statements *)

(** The analysis heap after some more effects. *)
Definition addWarnings (es : list Effect) (a : Analysis) : Analysis :=
  {| targetsMap := targetsMap a; world := addTrace es (world a) |}.

(** The field path and the prop name that a key path splits into. *)
Definition targetFieldPath (keyPath : list string) : list string :=
  take (length keyPath - 1) keyPath.

Definition targetPropName (keyPath : list string) : string :=
  nth (length keyPath - 1) keyPath "".

(** The prop-name check of the callback passes: the target field is not in
    the tree, or it is a map that has the prop. *)
Definition propNameAccepted (fields : jsval) (keyPath : list string) : Prop :=
  Immutable.hasIn fields (targetFieldPath keyPath) = false ∨
  Immutable.has (Immutable.getIn fields (targetFieldPath keyPath))
    (targetPropName keyPath) = Some true.

(** The props recorded so far for the target of a key path. *)
Definition recordedProps (a : Analysis) (keyPath : list string) : list string :=
  default [] (targetsMap a !! join (targetFieldPath keyPath)).


(** The effects of an analysis: its dispatch and its diagnostics. *)
Definition diagnostic (e : Effect) : Prop :=
  match e with
  | Warned _ | Dispatched true _ _ => True
  | _ => False
  end.

(** A computation of the analysis whose outcome and map depend on the map
    it starts from only, and which adds effects to the world and does
    nothing else to it. *)
Definition framed {A} (m : M Analysis A) : Prop :=
  ∀ tm, ∃ r tm' es,
    Forall diagnostic es ∧
    ∀ w, m {| targetsMap := tm; world := w |} =
         (r, {| targetsMap := tm'; world := addTrace es w |}).

(** A computation of the analysis that keeps a property of the map. *)
Definition preserves {A} (P : gmap string (list string) → Prop)
    (m : M Analysis A) : Prop :=
  ∀ a, P (targetsMap a) → P (targetsMap (m a).2).

(** What a resolver returns when it is run, outside of an analysis, with a
    [subscribe] that only reads the tree. *)
Definition liveValue (fields : jsval) (r : Resolution) : Outcome jsval :=
  (invoke (generateSubscribe (S:=unit) fields None) r tt).1.

(** What the handler of an observer is called with. *)
Definition liveArgs (fieldProps : FieldProps) (w : World) : ResolverArgs :=
  {| arg_fieldProps := fieldProps; arg_plain := true;
     arg_formFields := state_fields w; arg_context := context w |}.

(** Whether the handler of an observer goes on to validate: the
    [shouldValidate] of the event, [true] when the event has none. *)
Definition validates (event : ChangeEvent) : bool :=
  truthy (match shouldValidate event with
          | JUndefined => JBool true
          | given => given
          end).


(** The effects that the world has seen since an earlier world. *)
Definition newEffects (before after : World) : list Effect :=
  drop (length (trace before)) (trace after).





(** An effect that is not the end of a subscription. *)
Definition keepsSubscriptions (e : Effect) : Prop :=
  match e with Unsubscribed _ => False | _ => True end.

(** How often the subscription [id] was unsubscribed. *)
Definition isUnsubscribed (id : nat) (e : Effect) : bool :=
  match e with Unsubscribed other => Nat.eqb other id | _ => false end.

Definition unsubscriptions (id : nat) (es : list Effect) : nat :=
  length (List.filter (isUnsubscribed id) es).


(** A world whose subscription identities are below the next one, and where
    a subscription that was unsubscribed is gone and was unsubscribed
    once. *)
Definition wellFormed (w : World) : Prop :=
  (∀ id, id ∈ (subscriptions w).*1 → (id < next_id w)%nat)
  ∧ (∀ id, Unsubscribed id ∈ trace w →
           (id ∉ (subscriptions w).*1) ∧ (id < next_id w)%nat)
  ∧ (∀ id, (unsubscriptions id (trace w) ≤ 1)%nat).

(** A computation that keeps a property of the world, whatever its
    outcome. *)
Definition keeps {A} (P : World → Prop) (m : M World A) : Prop :=
  ∀ w, P w → P (m w).2.

(** A segment with no dot in it. *)
Fixpoint dotFree (s : string) : bool :=
  match s with
  | EmptyString => true
  | String c rest => negb (Ascii.eqb c "."%char) && dotFree rest
  end.

(** ** Sample data *)

Module Sample.

(** A tree with one registered field, [a], whose [value] is ['x']. *)
Definition fieldsWithA : jsval := JMap [("a", JMap [("value", JStr "x")])].

(** The subscriber field [b], which holds a value. *)
Definition fieldB : FieldProps :=
  {| fieldPath := ["b"]; valuePropName := "value";
     props := [("value", JStr "v")] |}.

(** The subscriber field [b] before it holds a value. *)
Definition emptyFieldB : FieldProps :=
  {| fieldPath := ["b"]; valuePropName := "value";
     props := [("value", JStr "")] |}.

(** A fresh analysis in a fresh form. *)
Definition freshAnalysis : Analysis :=
  {| targetsMap := ∅; world := newForm fieldsWithA JNull |}.

(** [({ subscribe }) => subscribe('a', 'value')] *)
Definition readsValue : Resolver :=
  λ _, Subscribe ["a"; "value"] Return.




Definition collaborators : Collaborators :=
  {| camelize := String.concat "-";
     updateField := λ _ _ propName value, JMap [(propName, value)] |}.

(** The form once [a] has registered, with the delegated subscription that
    a resolver of [label] on the field [b] has been waiting with. *)
Definition formAfterRegistration (resolver : Resolver) (subscriber : FieldProps)
  : World :=
  {| state_fields := fieldsWithA; context := JNull;
     subscriptions :=
       [(0, DelegatedSubscription "a-registered" ["a"] "a" "label" resolver
              subscriber)];
     next_id := 1; trace := [] |}.

(** The field [b] registers with a reactive [label] before [a] does; then
    [a] registers, and its registration event is emitted twice. *)
Definition lateRegistration : list FormEvent :=
  [SubscriberRegistered
     {| ownProps := emptyFieldB; reactiveProps := Some [("label", readsValue)] |}
     (JMap []);
   FieldsReplaced fieldsWithA;
   Emitted "a-registered" (JMap [("value", JStr "x")]);
   Emitted "a-registered" (JMap [("value", JStr "x")])].

End Sample.

(** ** Notions used in the further properties *)


(** A prop of a target that some key path names and that passes the checks
    of the callback on the tree. *)
Definition recordedFrom (fields : jsval) (gluedPath propName : string) : Prop :=
  ∃ keyPath,
    (2 ≤ length keyPath)%nat
    ∧ join (targetFieldPath keyPath) = gluedPath
    ∧ targetPropName keyPath = propName
    ∧ propNameAccepted fields keyPath.

(** A dependency map whose lists are not empty and hold accepted props
    only. *)
Definition soundTargets (fields : jsval) (tm : gmap string (list string)) : Prop :=
  ∀ gluedPath targetProps,
    tm !! gluedPath = Some targetProps →
    targetProps ≠ [] ∧ ∀ propName, propName ∈ targetProps →
                                    recordedFrom fields gluedPath propName.

(** A dependency map that holds every list of an earlier one, with names
    added at its end at most. *)
Definition extendsTargets (earlier later : gmap string (list string)) : Prop :=
  ∀ gluedPath targetProps,
    earlier !! gluedPath = Some targetProps →
    ∃ added, later !! gluedPath = Some (targetProps ++ added).


(** Two key paths that part ways: after a common start, their next segments
    differ. *)
Definition diverges (keyPath other : list string) : Prop :=
  ∃ common segment segment' rest rest',
    keyPath = common ++ segment :: rest
    ∧ other = common ++ segment' :: rest'
    ∧ segment ≠ segment'.


(** A world in which no two subscriptions share an identity, and every
    identity is below the next one. *)
Definition tidy (w : World) : Prop :=
  NoDup (subscriptions w).*1
  ∧ ∀ id, id ∈ (subscriptions w).*1 → (id < next_id w)%nat.

Definition isObserver (subscription : Subscription) : Prop :=
  match subscription with
  | ChangeObserver _ _ _ _ _ => True
  | DelegatedSubscription _ _ _ _ _ _ => False
  end.

(** A world that comes after another: it is tidy, its older subscriptions
    are subscriptions of the other, and it has every change observer of the
    other. *)
Definition comesAfter (w0 w : World) : Prop :=
  (next_id w0 ≤ next_id w)%nat
  ∧ tidy w
  ∧ (∀ entry, entry ∈ subscriptions w → (entry.1 < next_id w0)%nat →
              entry ∈ subscriptions w0)
  ∧ (∀ entry, entry ∈ subscriptions w0 → isObserver entry.2 →
              entry ∈ subscriptions w).

(** ** Radio fields: [src/Fields/Radio.jsx] *)

Module Radio.

(** [props[key]] on a plain object of props. *)
Definition prop (props : gmap string jsval) (key : string) : jsval :=
  default JUndefined (props !! key).

(** [mapPropsToField(props)] *)
Definition mapPropsToField (props : gmap string jsval) : gmap string jsval :=
  let checked := prop props "checked" in
  let value := prop props "value" in
  let fieldProps :=
    <["value" := if truthy checked then value else JNull]> props in
  if truthy checked then
    let fieldProps := <["checked" := checked]> fieldProps in
    if truthy value then
      let fieldProps := <["initialValue" := value]> fieldProps in
      delete "value" fieldProps
    else fieldProps
  else fieldProps.

End Radio.

(** ** More sample data *)

Module Cases.

(** [() => { throw new Error() }] *)
Definition throws : Resolver := λ _, Raise.

(** A tree in which [a] holds a string, not the props of a field. *)
Definition fieldsWithLeafA : jsval := JMap [("a", JStr "x")].

(** The field [b] with the given reactive props. *)
Definition subscriberB (rxProps : list (string * Resolver)) : Subscriber :=
  {| ownProps := Sample.fieldB; reactiveProps := Some rxProps |}.

(** The field [b] registers with a reactive [label] after [a] has. *)
Definition mountedRegistration : list FormEvent :=
  [SubscriberRegistered (subscriberB [("label", Sample.readsValue)])
     Sample.fieldsWithA].

(** The change of [a] to the value ['z']. *)
Definition changeToZ : ChangeEvent :=
  {| nextContextProps := JMap [("value", JStr "z")];
     shouldValidate := JUndefined |}.

(** [<Field.Radio name="color" value="red" checked />] *)
Definition checkedRadio : gmap string jsval :=
  {[ "name" := JStr "color"; "checked" := JBool true; "value" := JStr "red" ]}.

End Cases.

(** * Proofs *)

(** ** Gluing and splitting paths *)

Lemma split_dotFree s : dotFree s = true → split s = [s].
Proof.
  induction s as [|c s IH]; [done|]. cbn.
  intros [Hc Hs]%andb_true_iff. apply negb_true_iff in Hc. rewrite Hc.
  by rewrite IH.
Qed.

Lemma split_segment s rest :
  dotFree s = true →
  split (String.append s (String.append "." rest)) = s :: split rest.
Proof.
  induction s as [|c s IH]; [done|].
  change (String.append (String c s) (String.append "." rest))
    with (String c (String.append s (String.append "." rest))).
  cbn [dotFree split].
  intros [Hc Hs]%andb_true_iff. apply negb_true_iff in Hc. rewrite Hc.
  by rewrite IH.
Qed.

(** Gluing a field path and splitting it again gives the path back, when no
    segment has a dot in it. *)
Lemma split_join (path : list string) :
  path ≠ [] → forallb dotFree path = true → split (join path) = path.
Proof.
  induction path as [|s path IH]; [done|]. intros _. cbn [forallb].
  intros [Hs Hpath]%andb_true_iff.
  destruct path as [|s' path]; [by apply split_dotFree|].
  change (join (s :: s' :: path))
    with (String.append s (String.append "." (join (s' :: path)))).
  rewrite split_segment by done. by rewrite IH.
Qed.

(** ** Reasoning about the monad *)

Lemma bind_run {S A B} (m : M S A) (k : A → M S B) (s : S) :
  (m ≫= k) s = match m s with
               | (Ok x, s') => k x s'
               | (Thrown e, s') => (Thrown e, s')
               end.
Proof. reflexivity. Qed.

Lemma addTrace_nil w : addTrace [] w = w.
Proof. destruct w; unfold addTrace; simpl. by rewrite app_nil_r. Qed.

Lemma addTrace_app es1 es2 w :
  addTrace es2 (addTrace es1 w) = addTrace (es1 ++ es2) w.
Proof. unfold addTrace; simpl. by rewrite app_assoc. Qed.

Lemma addWarnings_nil a : addWarnings [] a = a.
Proof. destruct a; unfold addWarnings; simpl. by rewrite addTrace_nil. Qed.

Lemma warn_run condition d a :
  liftWorld (warn condition d) a =
  (Ok tt, addWarnings (if condition then [] else [Warned d]) a).
Proof.
  unfold liftWorld, warn. destruct condition; simpl.
  - by rewrite addWarnings_nil; destruct a.
  - reflexivity.
Qed.

Section Callback.
Variables (rxPropName subscriberPath : string) (fields : jsval).

(** A key path of at most one segment: one diagnostic, nothing else. *)
Lemma analyzeCallback_short keyPath a :
  (length keyPath ≤ 1)%nat →
  analyzeCallback rxPropName subscriberPath fields keyPath a =
  (Ok JUndefined,
   addWarnings [Warned (InvalidKeyPath rxPropName subscriberPath (join keyPath))] a).
Proof.
  intros Hlen. unfold analyzeCallback.
  rewrite bind_run, warn_run.
  destruct (1 <? length keyPath)%nat eqn:Hlt.
  - apply Nat.ltb_lt in Hlt. lia.
  - reflexivity.
Qed.

(** The target field is in the tree and does not have the prop: one
    diagnostic, nothing else. *)
Lemma analyzeCallback_undeclared keyPath a :
  (2 ≤ length keyPath)%nat →
  Immutable.hasIn fields (targetFieldPath keyPath) = true →
  Immutable.has (Immutable.getIn fields (targetFieldPath keyPath))
    (targetPropName keyPath) = Some false →
  analyzeCallback rxPropName subscriberPath fields keyPath a =
  (Ok JUndefined,
   addWarnings [Warned (InvalidPropName rxPropName subscriberPath
                          (targetPropName keyPath))] a).
Proof.
  intros Hlen Hin Hhas. unfold analyzeCallback.
  rewrite bind_run, warn_run.
  destruct (1 <? length keyPath)%nat eqn:Hlt;
    [|apply Nat.ltb_ge in Hlt; lia].
  cbn [negb]. rewrite addWarnings_nil.
  fold (targetFieldPath keyPath). fold (targetPropName keyPath).
  rewrite bind_run, Hin, Hhas. unfold ret. cbv iota beta.
  rewrite bind_run, warn_run. reflexivity.
Qed.

(** The key path is accepted and its prop is already recorded: nothing
    happens, and the callback returns [undefined]. *)
Lemma analyzeCallback_recorded keyPath a :
  (2 ≤ length keyPath)%nat →
  propNameAccepted fields keyPath →
  includes (targetPropName keyPath) (recordedProps a keyPath) = true →
  analyzeCallback rxPropName subscriberPath fields keyPath a =
  (Ok JUndefined, a).
Proof.
  intros Hlen Hacc Hinc. unfold analyzeCallback.
  rewrite bind_run, warn_run.
  destruct (1 <? length keyPath)%nat eqn:Hlt;
    [|apply Nat.ltb_ge in Hlt; lia].
  cbn [negb]. rewrite addWarnings_nil.
  fold (targetFieldPath keyPath). fold (targetPropName keyPath).
  rewrite bind_run.
  assert ((if Immutable.hasIn fields (targetFieldPath keyPath)
           then match Immutable.has (Immutable.getIn fields (targetFieldPath keyPath))
                        (targetPropName keyPath) with
                | Some b => ret b
                | None => throw TypeError
                end
           else ret true) a = (Ok true, a)) as ->.
  { destruct Hacc as [-> | Hhas]; [done|].
    rewrite Hhas. by destruct (Immutable.hasIn _ _). }
  rewrite bind_run, warn_run, addWarnings_nil. cbn [negb].
  rewrite bind_run. unfold gets.
  fold (recordedProps a keyPath). by rewrite Hinc.
Qed.

(** The key path is accepted and its prop is new: it is appended to the
    props of its target, and the callback returns [true]. *)
Lemma analyzeCallback_fresh keyPath a :
  (2 ≤ length keyPath)%nat →
  propNameAccepted fields keyPath →
  includes (targetPropName keyPath) (recordedProps a keyPath) = false →
  analyzeCallback rxPropName subscriberPath fields keyPath a =
  (Ok (JBool true),
   {| targetsMap := <[join (targetFieldPath keyPath) :=
                        recordedProps a keyPath ++ [targetPropName keyPath]]>
                      (targetsMap a);
      world := world a |}).
Proof.
  intros Hlen Hacc Hinc. unfold analyzeCallback.
  rewrite bind_run, warn_run.
  destruct (1 <? length keyPath)%nat eqn:Hlt;
    [|apply Nat.ltb_ge in Hlt; lia].
  cbn [negb]. rewrite addWarnings_nil.
  fold (targetFieldPath keyPath). fold (targetPropName keyPath).
  rewrite bind_run.
  assert ((if Immutable.hasIn fields (targetFieldPath keyPath)
           then match Immutable.has (Immutable.getIn fields (targetFieldPath keyPath))
                        (targetPropName keyPath) with
                | Some b => ret b
                | None => throw TypeError
                end
           else ret true) a = (Ok true, a)) as ->.
  { destruct Hacc as [-> | Hhas]; [done|].
    rewrite Hhas. by destruct (Immutable.hasIn _ _). }
  rewrite bind_run, warn_run, addWarnings_nil. cbn [negb].
  rewrite bind_run. unfold gets.
  fold (recordedProps a keyPath). by rewrite Hinc.
Qed.

End Callback.

(** The target field is in the tree and is not a map: [.has] is not a
    function. *)
Lemma analyzeCallback_not_a_map rxPropName subscriberPath fields keyPath a :
  (2 ≤ length keyPath)%nat →
  Immutable.hasIn fields (targetFieldPath keyPath) = true →
  Immutable.has (Immutable.getIn fields (targetFieldPath keyPath))
    (targetPropName keyPath) = None →
  analyzeCallback rxPropName subscriberPath fields keyPath a = (Thrown TypeError, a).
Proof.
  intros Hlen Hin Hhas. unfold analyzeCallback.
  rewrite bind_run, warn_run.
  destruct (1 <? length keyPath)%nat eqn:Hlt;
    [|apply Nat.ltb_ge in Hlt; lia].
  cbn [negb]. rewrite addWarnings_nil.
  fold (targetFieldPath keyPath). fold (targetPropName keyPath).
  by rewrite bind_run, Hin, Hhas.
Qed.




(** ** The calls of [subscribe] during an analysis *)

Lemma generateSubscribe_run {S} fields (cb : list string → M S jsval) keyPath s :
  generateSubscribe fields (Some cb) keyPath s =
  match cb keyPath s with
  | (Ok shouldResolve, s') =>
      (Ok (if truthy shouldResolve then Immutable.getIn fields keyPath
           else JUndefined), s')
  | (Thrown e, s') => (Thrown e, s')
  end.
Proof.
  unfold generateSubscribe. rewrite bind_run.
  destruct (cb keyPath s) as [[v|e] s']; [|done].
  by destruct (truthy v).
Qed.


Lemma invoke_preserves P (subscribe : list string → M Analysis jsval) r :
  (∀ keyPath, preserves P (subscribe keyPath)) → preserves P (invoke subscribe r).
Proof.
  intros Hsub. induction r as [value | keyPath next IH |]; intros a HP; cbn.
  - done.
  - rewrite bind_run. specialize (Hsub keyPath a HP).
    destruct (subscribe keyPath a) as [[v|e] a']; [|done].
    by apply IH.
  - done.
Qed.



(** ** The analysis as a whole *)

Lemma framed_ret {A} (x : A) : framed (ret x).
Proof.
  intros tm. exists (Ok x), tm, []. split; [constructor|].
  intros w. by rewrite addTrace_nil.
Qed.

Lemma framed_throw {A} e : framed (@throw Analysis A e).
Proof.
  intros tm. exists (Thrown e), tm, []. split; [constructor|].
  intros w. by rewrite addTrace_nil.
Qed.

Lemma framed_bind {A B} (m : M Analysis A) (k : A → M Analysis B) :
  framed m → (∀ x, framed (k x)) → framed (m ≫= k).
Proof.
  intros Hm Hk tm. destruct (Hm tm) as (r & tm1 & es1 & Hes1 & Hrun).
  destruct r as [x|e].
  - destruct (Hk x tm1) as (r2 & tm2 & es2 & Hes2 & Hrun2).
    exists r2, tm2, (es1 ++ es2). split; [by apply Forall_app|].
    intros w. by rewrite bind_run, Hrun, Hrun2, addTrace_app.
  - exists (Thrown e), tm1, es1. split; [done|].
    intros w. by rewrite bind_run, Hrun.
Qed.

Lemma framed_effect e : diagnostic e → framed (liftWorld (emitEffect e)).
Proof.
  intros He tm. exists (Ok tt), tm, [e]. split; [|done].
  by apply Forall_singleton.
Qed.

Lemma framed_warn condition d : framed (liftWorld (warn condition d)).
Proof.
  intros tm. exists (Ok tt), tm, (if condition then [] else [Warned d]).
  split; [destruct condition; by repeat constructor|].
  intros w. by rewrite warn_run.
Qed.

Lemma framed_analyzeCallback rxPropName subscriberPath fields keyPath :
  framed (analyzeCallback rxPropName subscriberPath fields keyPath).
Proof.
  unfold analyzeCallback.
  apply framed_bind; [apply framed_warn | intros _].
  destruct (negb _); [apply framed_ret|].
  apply framed_bind.
  { destruct (Immutable.hasIn _ _); [|apply framed_ret].
    destruct (Immutable.has _ _); [apply framed_ret | apply framed_throw]. }
  intros isValidPropName.
  apply framed_bind; [apply framed_warn | intros _].
  destruct (negb _); [apply framed_ret|].
  apply framed_bind.
  { intros tm. eexists (Ok _), tm, []. split; [constructor|]. intros w.
    rewrite addTrace_nil. unfold gets. cbn. reflexivity. }
  intros prevProps. destruct (includes _ _); [apply framed_ret|].
  apply framed_bind; [|intros _; apply framed_ret].
  intros tm. eexists (Ok tt), _, []. split; [constructor|]. intros w.
  rewrite addTrace_nil. unfold setTargets, modify. cbn. reflexivity.
Qed.

Lemma framed_analysisSubscribe rxPropName fieldProps fields keyPath :
  framed (analysisSubscribe rxPropName fieldProps fields keyPath).
Proof.
  unfold analysisSubscribe, generateSubscribe.
  apply framed_bind; [apply framed_analyzeCallback | intros v].
  destruct (negb _); apply framed_ret.
Qed.

Lemma framed_invoke (subscribe : list string → M Analysis jsval) r :
  (∀ keyPath, framed (subscribe keyPath)) → framed (invoke subscribe r).
Proof.
  intros Hsub. induction r as [value | keyPath next IH |]; cbn.
  - apply framed_ret.
  - by apply framed_bind.
  - apply framed_throw.
Qed.

(** The outcome of an analysis is a function of the tree it is given, of
    [form.state.fields] and of [form.context]; the rest of the world only
    receives its effects. *)
Lemma analyzeResolver_frame rxPropName resolver fieldProps fields formFields ctx :
  ∃ r es,
    Forall diagnostic es ∧
    ∀ w, state_fields w = formFields → context w = ctx →
         analyzeResolver rxPropName resolver fieldProps fields w =
         (r, addTrace es w).
Proof.
  set (args := {| arg_fieldProps := fieldProps; arg_plain := false;
                  arg_formFields := formFields; arg_context := ctx |}).
  destruct (framed_bind
              (liftWorld (emitEffect (Dispatched true fields args)))
              (λ _, dispatch resolver
                      (analysisSubscribe rxPropName fieldProps fields) args)
              (framed_effect (Dispatched true fields args) I)
              (λ _, framed_invoke _ _
                      (framed_analysisSubscribe rxPropName fieldProps fields)) ∅)
    as (r & tm' & es & Hes & Hrun).
  exists (match r with Ok v => Ok (tm', v) | Thrown e => Thrown e end), es.
  split; [done|]. intros w <- <-. unfold analyzeResolver. fold args.
  change (liftWorld (emitEffect (Dispatched true fields args));;
          dispatch resolver (analysisSubscribe rxPropName fieldProps fields) args)
    with (liftWorld (emitEffect (Dispatched true fields args)) ≫=
          λ _, dispatch resolver (analysisSubscribe rxPropName fieldProps fields) args).
  rewrite Hrun. by destruct r.
Qed.


(** ** Claims about one call of [subscribe] *)

(** C8. During an analysis, [subscribe] called with a key path of at most
    one segment emits the invalid-key-path diagnostic and nothing else,
    returns [undefined], and leaves the dependency map as it was. *)
Theorem C8_short_key_path_rejected rxPropName fieldProps fields keyPath a :
  (length keyPath ≤ 1)%nat →
  analysisSubscribe rxPropName fieldProps fields keyPath a =
  (Ok JUndefined,
   addWarnings [Warned (InvalidKeyPath rxPropName (join (fieldPath fieldProps))
                          (join keyPath))] a)
  ∧ targetsMap (analysisSubscribe rxPropName fieldProps fields keyPath a).2
    = targetsMap a.
Proof.
  intros Hlen. unfold analysisSubscribe. rewrite generateSubscribe_run.
  by rewrite (analyzeCallback_short _ _ _ _ _ Hlen).
Qed.

Lemma C8_short_key_path_rejected_witness :
  (length ["a"] ≤ 1)%nat ∧
  analysisSubscribe "label" Sample.fieldB Sample.fieldsWithA ["a"]
    Sample.freshAnalysis =
  (Ok JUndefined,
   addWarnings [Warned (InvalidKeyPath "label" "b" "a")] Sample.freshAnalysis).
Proof.
  split; [simpl; lia|].
  apply (C8_short_key_path_rejected "label" Sample.fieldB Sample.fieldsWithA
           ["a"] Sample.freshAnalysis).
  simpl; lia.
Defined.

(** C1, as the code has it.  During an analysis, when [subscribe] is called
    with a key path of two segments or more whose target field is in the
    tree and does not have the prop that the last segment names, the
    invalid-prop-name diagnostic is emitted, [subscribe] returns
    [undefined], and the dependency map is left as it was: the prop is not
    recorded. *)
Theorem C1_undeclared_prop_not_recorded rxPropName fieldProps fields keyPath a :
  (2 ≤ length keyPath)%nat →
  Immutable.hasIn fields (targetFieldPath keyPath) = true →
  Immutable.has (Immutable.getIn fields (targetFieldPath keyPath))
    (targetPropName keyPath) = Some false →
  analysisSubscribe rxPropName fieldProps fields keyPath a =
  (Ok JUndefined,
   addWarnings [Warned (InvalidPropName rxPropName (join (fieldPath fieldProps))
                          (targetPropName keyPath))] a)
  ∧ targetsMap (analysisSubscribe rxPropName fieldProps fields keyPath a).2
    = targetsMap a.
Proof.
  intros Hlen Hin Hhas. unfold analysisSubscribe. rewrite generateSubscribe_run.
  by rewrite (analyzeCallback_undeclared _ _ _ _ _ Hlen Hin Hhas).
Qed.

Lemma C1_undeclared_prop_not_recorded_witness :
  analysisSubscribe "label" Sample.fieldB Sample.fieldsWithA ["a"; "required"]
    Sample.freshAnalysis =
  (Ok JUndefined,
   addWarnings [Warned (InvalidPropName "label" "b" "required")]
     Sample.freshAnalysis).
Proof.
  apply (C1_undeclared_prop_not_recorded "label" Sample.fieldB
           Sample.fieldsWithA ["a"; "required"] Sample.freshAnalysis).
  - simpl; lia.
  - reflexivity.
  - reflexivity.
Defined.

(** C1 as stated does not hold: it is not so that every such call records
    its prop.  [subscribe('a', 'required')] on a tree where [a] has [value]
    only leaves the map empty. *)
Lemma C1_undeclared_prop_recorded_counterexample :
  ¬ (∀ rxPropName fieldProps fields keyPath a,
       (2 ≤ length keyPath)%nat →
       Immutable.hasIn fields (targetFieldPath keyPath) = true →
       Immutable.has (Immutable.getIn fields (targetFieldPath keyPath))
         (targetPropName keyPath) = Some false →
       ∃ targetProps,
         targetsMap (analysisSubscribe rxPropName fieldProps fields keyPath a).2
           !! join (targetFieldPath keyPath) = Some targetProps
         ∧ targetPropName keyPath ∈ targetProps).
Proof.
  intros Hclaim.
  destruct (Hclaim "label" Sample.fieldB Sample.fieldsWithA ["a"; "required"]
              Sample.freshAnalysis) as (targetProps & Hlookup & _).
  - simpl; lia.
  - reflexivity.
  - reflexivity.
  - vm_compute in Hlookup. discriminate Hlookup.
Qed.

(** C5, at the input where the code departs from it.  In a tree where [a]
    has the value ['x'], the first [subscribe('a', 'value')] of an analysis
    returns ['x'] and records the prop; the second one leaves the map as it
    is and returns [undefined], not the ['x'] that the tree holds. *)
Theorem C5_repeated_subscribe_returns_undefined :
  let subscribe := analysisSubscribe "label" Sample.fieldB Sample.fieldsWithA in
  let first := subscribe ["a"; "value"] Sample.freshAnalysis in
  let second := subscribe ["a"; "value"] first.2 in
  Immutable.getIn Sample.fieldsWithA ["a"; "value"] = JStr "x"
  ∧ first.1 = Ok (JStr "x")
  ∧ targetsMap first.2 = {[ "a" := ["value"] ]}
  ∧ second.1 = Ok JUndefined
  ∧ second.2 = first.2.
Proof. vm_compute. by repeat split. Qed.

(** ** Claims about an analysis *)




(** C10. An analysis run again on the same inputs, in the world that the
    first run left, has the outcome of the first run: the same dependency
    map and the same initial value (or the same exception).  Nothing of the
    first run's map is carried over. *)
Theorem C10_analysis_repeatable rxPropName resolver fieldProps fields w :
  let first := analyzeResolver rxPropName resolver fieldProps fields w in
  let second := analyzeResolver rxPropName resolver fieldProps fields first.2 in
  second.1 = first.1.
Proof.
  destruct (analyzeResolver_frame rxPropName resolver fieldProps fields
              (state_fields w) (context w)) as (r & es & _ & Hrun).
  cbn zeta. rewrite (Hrun w) by done. cbn.
  by rewrite (Hrun (addTrace es w)).
Qed.

(** ** The handler of a change observer *)

Lemma generateSubscribe_live {S} fields keyPath (s : S) :
  generateSubscribe fields None keyPath s = (Ok (Immutable.getIn fields keyPath), s).
Proof. reflexivity. Qed.

Lemma invoke_Subscribe {S} (subscribe : list string → M S jsval) keyPath next :
  invoke subscribe (Subscribe keyPath next) =
  subscribe keyPath ≫= λ value, invoke subscribe (next value).
Proof. reflexivity. Qed.

Lemma invoke_live {S} fields r (s : S) :
  invoke (generateSubscribe fields None) r s = (liveValue fields r, s).
Proof.
  unfold liveValue. induction r as [value | keyPath next IH |].
  - done.
  - rewrite !invoke_Subscribe, !bind_run, !generateSubscribe_live. apply IH.
  - done.
Qed.

Lemma observerHandler_run E targetPath rxPropName resolver fieldProps event w
    nextFields value :
  Immutable.setIn (state_fields w) targetPath (nextContextProps event)
    = Some nextFields →
  liveValue nextFields (resolver (liveArgs fieldProps w)) = Ok value →
  let called := [Dispatched false nextFields (liveArgs fieldProps w);
                 UpdateFieldCalled (fieldPath fieldProps) rxPropName value] in
  observerHandler E targetPath rxPropName resolver fieldProps event w =
  (Ok tt,
   addTrace
     (called ++
      if validates event
      then [ValidateFieldCalled true (fieldPath fieldProps)
              (updateField E (addTrace called w) (fieldPath fieldProps)
                 rxPropName value)
              true nextFields]
      else []) w).
Proof.
  intros Hset Hlive called. unfold observerHandler, async.
  rewrite bind_run. unfold gets at 1. cbn beta iota.
  rewrite Hset. rewrite bind_run. unfold ret at 1. cbn beta iota.
  rewrite bind_run. unfold gets at 1. cbn beta iota.
  fold (liveArgs fieldProps w).
  rewrite bind_run. unfold emitEffect at 1, modify at 1. cbn beta iota.
  rewrite bind_run. unfold dispatch. rewrite invoke_live, Hlive.
  rewrite bind_run. unfold emitEffect at 1, modify at 1. cbn beta iota.
  rewrite bind_run. unfold gets at 1. cbn beta iota.
  fold (validates event). unfold addTrace, called.
  destruct (validates event); cbn; by rewrite <- !app_assoc.
Qed.

Lemma observerHandler_quiet E targetPath rxPropName resolver fieldProps event w :
  ∃ es, Forall keepsSubscriptions es ∧
        observerHandler E targetPath rxPropName resolver fieldProps event w =
        (Ok tt, addTrace es w).
Proof.
  unfold observerHandler, async.
  rewrite bind_run. unfold gets at 1. cbn beta iota.
  destruct (Immutable.setIn _ _ _) as [nextFields|].
  2:{ rewrite bind_run. unfold throw. exists [Rejected InvalidKeyPathError].
      split; [by repeat constructor | done]. }
  rewrite bind_run. unfold ret at 1. cbn beta iota.
  rewrite bind_run. unfold gets at 1. cbn beta iota.
  rewrite bind_run. unfold emitEffect at 1, modify at 1. cbn beta iota.
  rewrite bind_run. unfold dispatch. rewrite invoke_live.
  destruct (liveValue _ _) as [value|e].
  2:{ eexists [_; Rejected e]. split; cycle 1.
      - unfold addTrace; cbn. by rewrite <- !app_assoc.
      - by repeat constructor. }
  rewrite bind_run. unfold emitEffect at 1, modify at 1. cbn beta iota.
  rewrite bind_run. unfold gets at 1. cbn beta iota.
  destruct (truthy _).
  - eexists [_; _; _]. split; cycle 1.
    + unfold addTrace, emitEffect, modify; cbn. by rewrite <- !app_assoc.
    + by repeat constructor.
  - eexists [_; _]. split; cycle 1.
    + unfold addTrace, ret; cbn. by rewrite <- !app_assoc.
    + by repeat constructor.
Qed.




(** ** The handler of a delegated subscription *)

Lemma analyzeResolver_at rxPropName resolver fieldProps fields w r :
  (analyzeResolver rxPropName resolver fieldProps fields w).1 = r →
  ∃ es, Forall diagnostic es ∧
    ∀ w', state_fields w' = state_fields w → context w' = context w →
          analyzeResolver rxPropName resolver fieldProps fields w' =
          (r, addTrace es w').
Proof.
  intros Hr.
  destruct (analyzeResolver_frame rxPropName resolver fieldProps fields
              (state_fields w) (context w)) as (r' & es & Hes & Hrun).
  exists es. split; [done|]. intros w' Hf Hc.
  rewrite (Hrun w) in Hr by done. cbn in Hr. subst r'. by apply Hrun.
Qed.







(** ** The orchestrator *)










(** ** Subscriptions over the life of a form *)

Lemma keeps_ret {A} P (x : A) : keeps P (ret x).
Proof. by intros w. Qed.

Lemma keeps_bind {A B} P (m : M World A) (k : A → M World B) :
  keeps P m → (∀ x, keeps P (k x)) → keeps P (m ≫= k).
Proof.
  intros Hm Hk w HP. rewrite bind_run. specialize (Hm w HP).
  destruct (m w) as [[x|e] w']; [by apply Hk | done].
Qed.

Lemma keeps_forEach {A} P (items : list A) (body : A → M World unit) :
  (∀ item, item ∈ items → keeps P (body item)) → keeps P (forEach items body).
Proof.
  induction items as [|item rest IH]; intros Hbody; [apply keeps_ret|].
  cbn [forEach]. change (bind ?m ?k) with (m ≫= k).
  apply keeps_bind; [apply Hbody; by left|].
  intros _. apply IH. intros other Hin. apply Hbody. by right.
Qed.

Lemma unsubscriptions_app id es1 es2 :
  unsubscriptions id (es1 ++ es2)
  = (unsubscriptions id es1 + unsubscriptions id es2)%nat.
Proof. unfold unsubscriptions. by rewrite List.filter_app, length_app. Qed.

Lemma unsubscriptions_quiet id es :
  Forall keepsSubscriptions es → unsubscriptions id es = 0.
Proof.
  unfold unsubscriptions. induction 1 as [|e es He _ IH]; [done|].
  cbn. by destruct e.
Qed.

Lemma unsubscriptions_absent id es :
  Unsubscribed id ∉ es → unsubscriptions id es = 0.
Proof.
  unfold unsubscriptions. induction es as [|e es IH]; [done|].
  intros Hnotin. apply not_elem_of_cons in Hnotin as [Hne Hnotin].
  cbn. destruct e; cbn; auto.
  destruct (Nat.eqb_spec id0 id) as [->|]; [done | auto].
Qed.

Lemma quiet_not_unsubscribed id es :
  Forall keepsSubscriptions es → Unsubscribed id ∉ es.
Proof. intros Hes Hin. rewrite Forall_forall in Hes. by apply Hes in Hin. Qed.

Lemma diagnostic_quiet es : Forall diagnostic es → Forall keepsSubscriptions es.
Proof.
  intros Hes. eapply Forall_impl; [exact Hes|].
  by intros [| |[|]| | | |].
Qed.

Lemma wellFormed_addTrace es w :
  Forall keepsSubscriptions es → wellFormed w → wellFormed (addTrace es w).
Proof.
  intros Hes (Hids & Hgone & Honce).
  split_and!; unfold addTrace; cbn [trace subscriptions next_id].
  - done.
  - intros id [Hin | Hin]%elem_of_app; [by apply Hgone|].
    by apply quiet_not_unsubscribed in Hin.
  - intros id. rewrite unsubscriptions_app, (unsubscriptions_quiet id es Hes).
    rewrite Nat.add_0_r. apply Honce.
Qed.

Lemma wellFormed_addSubscription s : keeps wellFormed (addSubscription s).
Proof.
  intros w (Hids & Hgone & Honce).
  split_and!; unfold addSubscription; cbn [snd trace subscriptions next_id].
  - intros id. rewrite fmap_app, elem_of_app. cbn.
    intros [Hin | ->%list_elem_of_singleton]; [apply Hids in Hin|]; lia.
  - intros id Hin. destruct (Hgone id Hin) as [Hnotin Hlt].
    split; [|lia]. rewrite fmap_app, elem_of_app. cbn.
    intros [? | ->%list_elem_of_singleton]; [done | lia].
  - done.
Qed.

Lemma unsubscribe_run id w :
  unsubscribe id w =
  (Ok tt,
   {| state_fields := state_fields w; context := context w;
      subscriptions := filter (λ entry, entry.1 ≠ id) (subscriptions w);
      next_id := next_id w; trace := trace w ++ [Unsubscribed id] |}).
Proof. reflexivity. Qed.

Lemma wellFormed_unsubscribe id w :
  id ∈ (subscriptions w).*1 → wellFormed w → wellFormed (unsubscribe id w).2.
Proof.
  intros Hin (Hids & Hgone & Honce).
  assert (∀ other, other ∈ (filter (λ entry : nat * Subscription, entry.1 ≠ id)
                              (subscriptions w)).*1 →
                   other ∈ (subscriptions w).*1 ∧ other ≠ id) as Hfilter.
  { intros other ([i s] & -> & [Hne Hentry]%list_elem_of_filter)%list_elem_of_fmap.
    split; [|done]. apply list_elem_of_fmap. by exists (i, s). }
  rewrite unsubscribe_run.
  split_and!; cbn [snd trace subscriptions next_id].
  - intros other Hother. apply Hids. by apply Hfilter.
  - intros other [Hother | Heq%list_elem_of_singleton]%elem_of_app;
      [|injection Heq as ->].
    + destruct (Hgone other Hother) as [Hnotin Hlt]. split; [|done].
      intros Hfiltered. by apply Hfilter in Hfiltered as [? _].
    + split; [|by apply Hids]. intros Hfiltered.
      by apply Hfilter in Hfiltered as [_ ?].
  - intros other. rewrite unsubscriptions_app.
    destruct (decide (other = id)) as [->|Hne].
    + rewrite unsubscriptions_absent; [cbn; by rewrite Nat.eqb_refl|].
      intros Hunsub. by apply Hgone in Hunsub as [? _].
    + specialize (Honce other). unfold unsubscriptions at 2. cbn.
      destruct (Nat.eqb_spec id other); [done | cbn; lia].
Qed.

Lemma wellFormed_emitEffect e :
  keepsSubscriptions e → keeps wellFormed (emitEffect e).
Proof.
  intros He w Hw. apply (wellFormed_addTrace [e] w); [|done].
  by apply Forall_singleton.
Qed.

Lemma wellFormed_analyzeResolver rxPropName resolver fieldProps fields :
  keeps wellFormed (analyzeResolver rxPropName resolver fieldProps fields).
Proof.
  intros w Hw.
  destruct (analyzeResolver_frame rxPropName resolver fieldProps fields
              (state_fields w) (context w)) as (r & es & Hes & Hrun).
  rewrite Hrun by done. apply wellFormed_addTrace; [|done].
  by apply diagnostic_quiet.
Qed.

Lemma wellFormed_next E subscription event :
  keeps wellFormed (next E subscription event).
Proof.
  intros w Hw. destruct subscription as [targetPath ? rxPropName resolver fp|];
    [|done].
  cbn [next].
  destruct (observerHandler_quiet E targetPath rxPropName resolver fp event w)
    as (es & Hes & ->).
  by apply wellFormed_addTrace.
Qed.

Lemma wellFormed_createObserver targetPath targetProps rxPropName resolver
    fieldProps :
  keeps wellFormed
    (createObserver targetPath targetProps rxPropName resolver fieldProps).
Proof.
  unfold createObserver.
  apply keeps_bind; [apply wellFormed_addSubscription | intros _; apply keeps_ret].
Qed.

Lemma wellFormed_delegatedHandler E id targetPath gluedPath rxPropName resolver
    fieldProps delegatedField w :
  id ∈ (subscriptions w).*1 →
  wellFormed w →
  wellFormed (delegatedHandler E id targetPath gluedPath rxPropName resolver
                fieldProps delegatedField w).2.
Proof.
  intros Hin Hw. unfold delegatedHandler.
  rewrite bind_run.
  pose proof (wellFormed_unsubscribe id w Hin Hw) as Hw1.
  destruct (unsubscribe id w) as [[[]|e] w1]; [|done]. cbn [snd] in Hw1.
  revert w1 Hw1. apply keeps_bind.
  { by apply wellFormed_emitEffect. }
  intros _. apply keeps_bind; [by intros w1|]. intros nextFields.
  apply keeps_bind; [apply wellFormed_analyzeResolver|]. intros analysis.
  apply keeps_bind; [apply wellFormed_createObserver|]. intros subscription.
  apply wellFormed_next.
Qed.

Lemma wellFormed_emit E eventName payload :
  keeps wellFormed (emit E eventName payload).
Proof.
  unfold emit. apply keeps_bind; [by intros w|]. intros listeners.
  apply keeps_forEach. intros [id subscription] _ w Hw. cbn [fst snd].
  destruct subscription as [|event targetPath gluedPath rxPropName resolver fp];
    [done|].
  rewrite bind_run. unfold gets. cbn beta iota.
  destruct (String.eqb event eventName); [|done].
  unfold isSubscribed. case_bool_decide as Hin; [|done].
  cbn [andb]. by apply wellFormed_delegatedHandler.
Qed.

Lemma wellFormed_propsChange E targetPath prevContextProps nextContextProps
    shouldValidate :
  keeps wellFormed
    (propsChange E targetPath prevContextProps nextContextProps shouldValidate).
Proof.
  unfold propsChange. apply keeps_bind; [by intros w|]. intros listeners.
  apply keeps_forEach. intros entry _.
  destruct (receives _ _ _ _); [apply wellFormed_next | apply keeps_ret].
Qed.

Lemma wellFormed_wireTarget E fields rxPropName resolver fieldProps tm gluedPath :
  keeps wellFormed
    (wireTarget E fields rxPropName resolver fieldProps tm gluedPath).
Proof.
  unfold wireTarget. destruct (Immutable.hasIn _ _).
  - apply keeps_bind; [apply wellFormed_createObserver | intros _; apply keeps_ret].
  - apply keeps_bind; [apply wellFormed_addSubscription | intros _; apply keeps_ret].
Qed.

Lemma wellFormed_createSubscriptions E subscriber fields :
  keeps wellFormed (createSubscriptions E subscriber fields).
Proof.
  unfold createSubscriptions.
  destruct (reactiveProps subscriber) as [rxProps|]; [|apply keeps_ret].
  apply keeps_forEach. intros entry _. unfold wireReactiveProp.
  apply keeps_bind; [apply wellFormed_analyzeResolver|]. intros analysis.
  apply keeps_bind; [by apply wellFormed_emitEffect|]. intros _.
  apply keeps_bind; [by apply wellFormed_emitEffect|]. intros _.
  destruct (_ =? _)%nat; [apply keeps_ret|].
  apply keeps_forEach. intros gluedPath _. apply wellFormed_wireTarget.
Qed.

Lemma wellFormed_react E event : keeps wellFormed (react E event).
Proof.
  destruct event; cbn [react].
  - by intros w.
  - apply wellFormed_createSubscriptions.
  - apply wellFormed_emit.
  - apply wellFormed_propsChange.
Qed.

Lemma wellFormed_newForm fields ctx : wellFormed (newForm fields ctx).
Proof.
  split_and!; cbn.
  - by intros id Hin%elem_of_nil.
  - by intros id Hin%elem_of_nil.
  - intros id. unfold unsubscriptions. cbn. lia.
Qed.

Lemma wellFormed_reactAll E events w :
  wellFormed w → wellFormed (reactAll E events w).
Proof.
  revert w. induction events as [|event events IH]; intros w Hw; [done|].
  cbn. apply IH. by apply wellFormed_react.
Qed.

(** What a delegated handler does first. *)
Lemma delegatedHandler_first E id targetPath gluedPath rxPropName resolver
    fieldProps delegatedField w :
  ∃ rest,
    trace (delegatedHandler E id targetPath gluedPath rxPropName resolver
             fieldProps delegatedField w).2 =
    trace w ++ Unsubscribed id :: Logged LogDelegatedAnalysis :: rest.
Proof.
  unfold delegatedHandler.
  rewrite bind_run, unsubscribe_run.
  rewrite bind_run. unfold emitEffect at 1, modify at 1. cbn beta iota.
  rewrite bind_run. unfold gets at 1. cbn beta iota. cbn [state_fields].
  rewrite bind_run.
  match goal with |- context [analyzeResolver _ _ _ _ ?w2] =>
    destruct (analyzeResolver_frame rxPropName resolver fieldProps
                (state_fields w) (state_fields w) (context w))
      as (r & es & _ & Hrun);
    rewrite (Hrun w2) by done
  end.
  destruct r as [analysis|e].
  2:{ exists es. cbn. by rewrite <- !app_assoc. }
  rewrite bind_run. unfold createObserver. rewrite bind_run.
  unfold addSubscription at 1, ret at 1. cbn beta iota.
  unfold next.
  match goal with |- context [observerHandler ?E ?tp ?rx ?res ?fp ?ev ?w3] =>
    destruct (observerHandler_quiet E tp rx res fp ev w3) as (es2 & _ & ->)
  end.
  exists (es ++ es2). cbn. by rewrite <- !app_assoc.
Qed.

(** C2.  The handler of a delegated subscription unsubscribes itself before
    it does anything else, whatever happens next in it.  Consequently, over
    any life of a form, every delegated subscription is unsubscribed, and so
    has its handler run, at most once; once that has happened it is no
    longer among the listeners, whatever is emitted afterwards. *)
Theorem C2_delegated_at_most_once E :
  (∀ id targetPath gluedPath rxPropName resolver fieldProps delegatedField w,
     ∃ rest,
       trace (delegatedHandler E id targetPath gluedPath rxPropName resolver
                fieldProps delegatedField w).2 =
       trace w ++ Unsubscribed id :: Logged LogDelegatedAnalysis :: rest)
  ∧ (∀ events fields ctx id,
       let w := reactAll E events (newForm fields ctx) in
       (unsubscriptions id (trace w) ≤ 1)%nat
       ∧ (Unsubscribed id ∈ trace w → id ∉ (subscriptions w).*1)).
Proof.
  split; [intros; apply delegatedHandler_first|].
  intros events fields ctx id w.
  destruct (wellFormed_reactAll E events (newForm fields ctx)
              (wellFormed_newForm fields ctx)) as (_ & Hgone & Honce).
  split; [apply Honce|]. intros Hin. by apply Hgone in Hin as [? _].
Qed.

Lemma C2_delegated_at_most_once_witness :
  let w := reactAll Sample.collaborators Sample.lateRegistration
             (newForm (JMap []) JNull) in
  unsubscriptions 0 (trace w) = 1
  ∧ (unsubscriptions 0 (trace w) ≤ 1)%nat
  ∧ 0 ∉ (subscriptions w).*1.
Proof.
  split; [by vm_compute|].
  destruct (proj2 (C2_delegated_at_most_once Sample.collaborators)
              Sample.lateRegistration (JMap []) JNull 0) as [Honce Hgone].
  split; [exact Honce|]. apply Hgone.
  vm_compute. do 3 right. by left.
Defined.

(** * Further properties *)

(** ** More on the analysis *)

(** X1.  Whether it returns or throws, an analysis does nothing to the form
    but dispatch the resolver and warn: [form.state.fields], [form.context]
    and the subscriptions are left as they were, and neither
    [form.updateField] nor [form.validateField] is called. *)
Theorem X1_analysis_only_diagnoses rxPropName resolver fieldProps fields w :
  ∃ es,
    Forall diagnostic es
    ∧ (analyzeResolver rxPropName resolver fieldProps fields w).2 = addTrace es w.
Proof.
  destruct (analyzeResolver_frame rxPropName resolver fieldProps fields
              (state_fields w) (context w)) as (r & es & Hes & Hrun).
  exists es. split; [done|]. by rewrite Hrun.
Qed.

(** The ways a call of the callback can go, with what made it record. *)
Lemma analyzeCallback_records rxPropName subscriberPath fields keyPath a :
  targetsMap (analyzeCallback rxPropName subscriberPath fields keyPath a).2
    = targetsMap a
  ∨ ((2 ≤ length keyPath)%nat
     ∧ propNameAccepted fields keyPath
     ∧ includes (targetPropName keyPath) (recordedProps a keyPath) = false
     ∧ analyzeCallback rxPropName subscriberPath fields keyPath a =
       (Ok (JBool true),
        {| targetsMap := <[join (targetFieldPath keyPath) :=
                             recordedProps a keyPath ++ [targetPropName keyPath]]>
                           (targetsMap a);
           world := world a |})).
Proof.
  destruct (le_lt_dec (length keyPath) 1) as [Hshort | Hlong].
  { left. by rewrite analyzeCallback_short. }
  assert (propNameAccepted fields keyPath →
          targetsMap (analyzeCallback rxPropName subscriberPath fields keyPath a).2
            = targetsMap a
          ∨ ((2 ≤ length keyPath)%nat
             ∧ propNameAccepted fields keyPath
             ∧ includes (targetPropName keyPath) (recordedProps a keyPath) = false
             ∧ analyzeCallback rxPropName subscriberPath fields keyPath a =
               (Ok (JBool true),
                {| targetsMap := <[join (targetFieldPath keyPath) :=
                                     recordedProps a keyPath
                                     ++ [targetPropName keyPath]]>
                                   (targetsMap a);
                   world := world a |}))) as Haccepted.
  { intros Hacc.
    destruct (includes (targetPropName keyPath) (recordedProps a keyPath)) eqn:Hinc.
    - left. rewrite analyzeCallback_recorded; [done | lia | done..].
    - right. split_and!; [lia | done | done |].
      apply analyzeCallback_fresh; [lia | done..]. }
  destruct (Immutable.hasIn fields (targetFieldPath keyPath)) eqn:Hin.
  - destruct (Immutable.has (Immutable.getIn fields (targetFieldPath keyPath))
                (targetPropName keyPath)) as [[|]|] eqn:Hhas.
    + apply Haccepted. by right.
    + left. rewrite analyzeCallback_undeclared; [done | lia | done..].
    + left. rewrite analyzeCallback_not_a_map; [done | lia | done..].
  - apply Haccepted. by left.
Qed.

Lemma analysisSubscribe_targets rxPropName fieldProps fields keyPath a :
  targetsMap (analysisSubscribe rxPropName fieldProps fields keyPath a).2 =
  targetsMap (analyzeCallback rxPropName (join (fieldPath fieldProps)) fields
                keyPath a).2.
Proof.
  unfold analysisSubscribe. rewrite generateSubscribe_run.
  by destruct (analyzeCallback _ _ _ _ _) as [[v|e] a'].
Qed.

Lemma analysisSubscribe_sound rxPropName fieldProps fields keyPath :
  preserves (soundTargets fields)
    (analysisSubscribe rxPropName fieldProps fields keyPath).
Proof.
  intros a Hsound. rewrite analysisSubscribe_targets.
  destruct (analyzeCallback_records rxPropName (join (fieldPath fieldProps))
              fields keyPath a) as [-> | (Hlen & Hacc & Hinc & ->)]; [done|].
  cbn. intros gluedPath targetProps.
  destruct (decide (join (targetFieldPath keyPath) = gluedPath)) as [<-|Hne].
  - rewrite lookup_insert_eq. intros [= <-]. split.
    + by destruct (recordedProps a keyPath).
    + intros propName [Hold | ->%list_elem_of_singleton]%elem_of_app.
      * unfold recordedProps in Hold.
        destruct (targetsMap a !! join (targetFieldPath keyPath)) eqn:Hprev;
          [|by apply elem_of_nil in Hold].
        by apply (Hsound _ _ Hprev).
      * by exists keyPath.
  - rewrite lookup_insert_ne by done. apply Hsound.
Qed.

Lemma analyzeResolver_preserved P rxPropName resolver fieldProps fields w tm v w' :
  P ∅ →
  (∀ keyPath, preserves P (analysisSubscribe rxPropName fieldProps fields keyPath)) →
  analyzeResolver rxPropName resolver fieldProps fields w = (Ok (tm, v), w') →
  P tm.
Proof.
  intros Hempty Hsub. unfold analyzeResolver.
  set (args := {| arg_fieldProps := fieldProps |}).
  set (a0 := {| targetsMap := ∅; world := w |}).
  intros Hrun.
  pose proof (invoke_preserves P
                (analysisSubscribe rxPropName fieldProps fields) (resolver args)
                Hsub (addWarnings [Dispatched true fields args] a0) Hempty)
    as Hinv.
  rewrite bind_run in Hrun. cbn in Hrun.
  unfold dispatch in Hrun. unfold addWarnings, addTrace in Hinv. cbn in Hinv.
  destruct (invoke _ _ _) as [[v'|e] a']; [|done].
  by injection Hrun as <- _ _.
Qed.

Lemma analyzeResolver_sound rxPropName resolver fieldProps fields w tm v w' :
  analyzeResolver rxPropName resolver fieldProps fields w = (Ok (tm, v), w') →
  soundTargets fields tm.
Proof.
  apply analyzeResolver_preserved.
  - intros gluedPath targetProps. by rewrite lookup_empty.
  - apply analysisSubscribe_sound.
Qed.

(** X2.  No list of the dependency map that an analysis returns is empty:
    a target path is a key of the map only with a prop listed for it. *)
Theorem X2_recorded_lists_not_empty rxPropName resolver fieldProps fields w
    tm v w' gluedPath targetProps :
  analyzeResolver rxPropName resolver fieldProps fields w = (Ok (tm, v), w') →
  tm !! gluedPath = Some targetProps →
  targetProps ≠ [].
Proof.
  intros Hrun Hlookup.
  by destruct (analyzeResolver_sound _ _ _ _ _ _ _ _ Hrun _ _ Hlookup).
Qed.





Lemma extendsTargets_refl tm : extendsTargets tm tm.
Proof. intros k ps Hk. exists []. by rewrite app_nil_r. Qed.

Lemma extendsTargets_trans tm1 tm2 tm3 :
  extendsTargets tm1 tm2 → extendsTargets tm2 tm3 → extendsTargets tm1 tm3.
Proof.
  intros H12 H23 k ps Hk. destruct (H12 k ps Hk) as (more1 & Hk2).
  destruct (H23 k _ Hk2) as (more2 & Hk3).
  exists (more1 ++ more2). by rewrite app_assoc.
Qed.

Lemma analysisSubscribe_extends rxPropName fieldProps fields keyPath a :
  extendsTargets (targetsMap a)
    (targetsMap (analysisSubscribe rxPropName fieldProps fields keyPath a).2).
Proof.
  rewrite analysisSubscribe_targets.
  destruct (analyzeCallback_records rxPropName (join (fieldPath fieldProps))
              fields keyPath a) as [-> | (Hlen & Hacc & Hinc & ->)];
    [apply extendsTargets_refl|].
  cbn. intros gluedPath targetProps Hlookup.
  destruct (decide (join (targetFieldPath keyPath) = gluedPath)) as [<-|Hne].
  - rewrite lookup_insert_eq. unfold recordedProps. rewrite Hlookup. cbn.
    by exists [targetPropName keyPath].
  - rewrite lookup_insert_ne by done. exists []. by rewrite app_nil_r.
Qed.

(** X5.  During an analysis nothing that was recorded is dropped or moved:
    whatever the resolver goes on to do, every list of the dependency map
    stays a prefix of the list that the map holds afterwards. *)
Theorem X5_subscribe_only_appends rxPropName fieldProps fields r a :
  extendsTargets (targetsMap a)
    (targetsMap (invoke (analysisSubscribe rxPropName fieldProps fields) r a).2).
Proof.
  revert a. induction r as [value | keyPath next IH |]; intros a.
  - apply extendsTargets_refl.
  - rewrite invoke_Subscribe, bind_run.
    pose proof (analysisSubscribe_extends rxPropName fieldProps fields keyPath a)
      as Hstep.
    destruct (analysisSubscribe rxPropName fieldProps fields keyPath a)
      as [[v|e] a']; [|done].
    eapply extendsTargets_trans; [exact Hstep | apply IH].
  - apply extendsTargets_refl.
Qed.



(** ** More on the handler of a change observer *)

Lemma lookup_set_eq key value entries :
  Immutable.lookup key (Immutable.set key value entries) = Some value.
Proof.
  induction entries as [|[k v] entries IH]; cbn.
  - by rewrite String.eqb_refl.
  - destruct (String.eqb k key) eqn:Hk; cbn; by rewrite Hk.
Qed.

Lemma lookup_set_ne key other value entries :
  key ≠ other →
  Immutable.lookup other (Immutable.set key value entries) =
  Immutable.lookup other entries.
Proof.
  intros Hne. induction entries as [|[k v] entries IH]; cbn.
  - destruct (String.eqb_spec key other); done.
  - destruct (String.eqb_spec k key) as [->|Hk]; cbn.
    + destruct (String.eqb_spec key other); done.
    + by rewrite IH.
Qed.

(** What the tree holds under the key path that was set. *)
Lemma getInFrom_updateInDeepMap existing keyPath value updated rest :
  Immutable.updateInDeepMap existing keyPath value = Some updated →
  Immutable.getInFrom updated (keyPath ++ rest) = Immutable.getInFrom value rest.
Proof.
  revert existing updated.
  induction keyPath as [|key keyPath IH]; intros existing updated; cbn.
  - by intros [= ->].
  - destruct existing as [[| | | | | |entries]|]; try done.
    + destruct (Immutable.updateInDeepMap (Immutable.lookup key entries)
                  keyPath value) as [nextUpdated|] eqn:Hnext; [|done].
      cbn -[String.eqb]. intros [= <-]. rewrite lookup_set_eq. by eapply IH.
    + destruct (Immutable.updateInDeepMap None keyPath value)
        as [nextUpdated|] eqn:Hnext; [|done].
      cbn -[String.eqb]. intros [= <-].
      change [(key, nextUpdated)] with (Immutable.set key nextUpdated []).
      rewrite lookup_set_eq. by eapply IH.
Qed.

(** What the tree holds where the key path that was set does not lead. *)
Lemma getInFrom_updateInDeepMap_diverges existing keyPath value updated other :
  Immutable.updateInDeepMap existing keyPath value = Some updated →
  diverges keyPath other →
  Immutable.getInFrom updated other =
  match existing with
  | Some tree => Immutable.getInFrom tree other
  | None => None
  end.
Proof.
  intros Hupdate (common & segment & segment' & rest & rest' & -> & -> & Hne).
  revert existing updated Hupdate.
  induction common as [|key common IH]; intros existing updated; cbn.
  - destruct existing as [[| | | | | |entries]|]; try done.
    + destruct (Immutable.updateInDeepMap (Immutable.lookup segment entries)
                  rest value) as [nextUpdated|]; [|done].
      cbn -[String.eqb]. intros [= <-]. by rewrite lookup_set_ne.
    + destruct (Immutable.updateInDeepMap None rest value)
        as [nextUpdated|]; [|done].
      cbn -[String.eqb]. intros [= <-].
      change [(segment, nextUpdated)] with (Immutable.set segment nextUpdated []).
      by rewrite lookup_set_ne.
  - destruct existing as [[| | | | | |entries]|]; try done.
    + destruct (Immutable.updateInDeepMap (Immutable.lookup key entries)
                  (common ++ segment :: rest) value)
        as [nextUpdated|] eqn:Hnext; [|done].
      cbn -[String.eqb]. intros [= <-]. rewrite lookup_set_eq.
      rewrite (IH _ _ Hnext). by destruct (Immutable.lookup key entries).
    + destruct (Immutable.updateInDeepMap None (common ++ segment :: rest) value)
        as [nextUpdated|] eqn:Hnext; [|done].
      cbn -[String.eqb]. intros [= <-].
      change [(key, nextUpdated)] with (Immutable.set key nextUpdated []).
      rewrite lookup_set_eq. by rewrite (IH _ _ Hnext).
Qed.

(** X7.  The tree that the handler of a change observer builds for the
    resolver holds the next props at the target path, so that a key path
    that goes on from the target path reads the next props; and it holds
    what [form.state.fields] holds at every key path that parts ways with
    the target path. *)
Theorem X7_observer_tree_differs_at_target fields targetPath nextProps nextFields :
  Immutable.setIn fields targetPath nextProps = Some nextFields →
  (∀ rest, Immutable.getIn nextFields (targetPath ++ rest)
           = Immutable.getIn nextProps rest)
  ∧ (∀ other, diverges targetPath other →
              Immutable.getIn nextFields other = Immutable.getIn fields other
              ∧ Immutable.hasIn nextFields other = Immutable.hasIn fields other).
Proof.
  unfold Immutable.setIn, Immutable.getIn, Immutable.hasIn. intros Hset. split.
  - intros rest. by rewrite (getInFrom_updateInDeepMap _ _ _ _ rest Hset).
  - intros other Hother.
    by rewrite (getInFrom_updateInDeepMap_diverges _ _ _ _ _ Hset Hother).
Qed.

Lemma updateInDeepMap_mounted tree keyPath value :
  is_Some (Immutable.getInFrom tree keyPath) →
  is_Some (Immutable.updateInDeepMap (Some tree) keyPath value).
Proof.
  revert tree. induction keyPath as [|key keyPath IH]; intros tree; cbn; [done|].
  destruct tree as [| | | | | |entries]; try by intros [? [=]].
  destruct (Immutable.lookup key entries) as [nested|]; [|by intros [? [=]]].
  intros Hnested. destruct (IH nested Hnested) as [nextUpdated ->]. done.
Qed.

Lemma observerHandler_invalid E targetPath rxPropName resolver fieldProps event w :
  Immutable.setIn (state_fields w) targetPath (nextContextProps event) = None →
  observerHandler E targetPath rxPropName resolver fieldProps event w =
  (Ok tt, addTrace [Rejected InvalidKeyPathError] w).
Proof.
  intros Hset. unfold observerHandler, async.
  rewrite bind_run. unfold gets at 1. cbn beta iota. by rewrite Hset.
Qed.

Lemma observerHandler_throws E targetPath rxPropName resolver fieldProps event w
    nextFields e :
  Immutable.setIn (state_fields w) targetPath (nextContextProps event)
    = Some nextFields →
  liveValue nextFields (resolver (liveArgs fieldProps w)) = Thrown e →
  observerHandler E targetPath rxPropName resolver fieldProps event w =
  (Ok tt,
   addTrace [Dispatched false nextFields (liveArgs fieldProps w); Rejected e] w).
Proof.
  intros Hset Hlive. unfold observerHandler, async.
  rewrite bind_run. unfold gets at 1. cbn beta iota.
  rewrite Hset. rewrite bind_run. unfold ret at 1. cbn beta iota.
  rewrite bind_run. unfold gets at 1. cbn beta iota.
  fold (liveArgs fieldProps w).
  rewrite bind_run. unfold emitEffect at 1, modify at 1. cbn beta iota.
  rewrite bind_run. unfold dispatch. rewrite invoke_live, Hlive.
  unfold addTrace. cbn. by rewrite <- app_assoc.
Qed.

(** X6.  The handler of a change observer never throws to the one that
    delivers the event.  When the target path cannot be set in
    [form.state.fields], the promise of the handler is rejected before the
    resolver is called; when the resolver throws, it is rejected after the
    dispatch.  In both cases neither [form.updateField] nor
    [form.validateField] is called. *)
Theorem X6_observer_failure_is_swallowed E targetPath targetProps rxPropName
    resolver fieldProps event w :
  let observer := ChangeObserver targetPath targetProps rxPropName resolver
                    fieldProps in
  (Immutable.setIn (state_fields w) targetPath (nextContextProps event) = None →
   next E observer event w = (Ok tt, addTrace [Rejected InvalidKeyPathError] w))
  ∧ (∀ nextFields e,
       Immutable.setIn (state_fields w) targetPath (nextContextProps event)
         = Some nextFields →
       liveValue nextFields (resolver (liveArgs fieldProps w)) = Thrown e →
       next E observer event w =
       (Ok tt,
        addTrace [Dispatched false nextFields (liveArgs fieldProps w);
                  Rejected e] w)).
Proof.
  cbn zeta. unfold next. split.
  - apply observerHandler_invalid.
  - intros nextFields e. apply observerHandler_throws.
Qed.

(** X8.  When the target path is in [form.state.fields], setting it cannot
    fail: the first thing that the handler of the observer does to the
    outside is to dispatch the resolver on the updated tree. *)
Theorem X8_observer_of_mounted_target_dispatches E targetPath targetProps
    rxPropName resolver fieldProps event w :
  Immutable.hasIn (state_fields w) targetPath = true →
  ∃ nextFields rest,
    Immutable.setIn (state_fields w) targetPath (nextContextProps event)
      = Some nextFields
    ∧ newEffects w
        (next E (ChangeObserver targetPath targetProps rxPropName resolver
                   fieldProps) event w).2
      = Dispatched false nextFields (liveArgs fieldProps w) :: rest.
Proof.
  intros Hmounted. unfold Immutable.hasIn in Hmounted.
  apply bool_decide_eq_true in Hmounted.
  destruct (updateInDeepMap_mounted _ _ (nextContextProps event) Hmounted)
    as [nextFields Hset].
  exists nextFields. unfold next.
  destruct (liveValue nextFields (resolver (liveArgs fieldProps w)))
    as [value|e] eqn:Hlive.
  - eexists. split; [exact Hset|].
    rewrite (observerHandler_run E targetPath rxPropName resolver fieldProps
               event w nextFields value Hset Hlive).
    unfold newEffects, addTrace. cbn [snd trace].
    rewrite drop_app_length. reflexivity.
  - exists [Rejected e]. split; [exact Hset|].
    rewrite (observerHandler_throws E targetPath rxPropName resolver fieldProps
               event w nextFields e Hset Hlive).
    unfold newEffects, addTrace. cbn [snd trace].
    by rewrite drop_app_length.
Qed.

(** ** More on the orchestrator and on delegated subscriptions *)





Lemma delegatedHandler_throws E id targetPath gluedPath rxPropName resolver
    fieldProps delegatedField w e :
  (analyzeResolver rxPropName resolver fieldProps (state_fields w) w).1
    = Thrown e →
  ∃ es,
    Forall diagnostic es
    ∧ delegatedHandler E id targetPath gluedPath rxPropName resolver fieldProps
        delegatedField w =
      (Thrown e,
       {| state_fields := state_fields w; context := context w;
          subscriptions := filter (λ entry, entry.1 ≠ id) (subscriptions w);
          next_id := next_id w;
          trace := trace w ++ [Unsubscribed id; Logged LogDelegatedAnalysis]
                   ++ es |}).
Proof.
  intros Hanalysis.
  destruct (analyzeResolver_at _ _ _ _ _ _ Hanalysis) as (es & Hes & Hrun).
  exists es. split; [done|]. unfold delegatedHandler.
  rewrite bind_run, unsubscribe_run.
  rewrite bind_run. unfold emitEffect at 1, modify at 1. cbn beta iota.
  rewrite bind_run. unfold gets at 1. cbn beta iota. cbn [state_fields].
  rewrite bind_run, Hrun by done.
  unfold addTrace. cbn [fst snd trace subscriptions state_fields context next_id].
  by rewrite <- !app_assoc.
Qed.

(** X10.  When the analysis that the handler of a delegated subscription
    runs throws, the handler throws the same exception after it has
    unsubscribed: the delegated subscription is gone, no change observer
    takes its place, and nothing is called on the form. *)
Theorem X10_delegated_throw_drops_subscription E id targetPath gluedPath rxPropName
    resolver fieldProps delegatedField w e :
  (analyzeResolver rxPropName resolver fieldProps (state_fields w) w).1
    = Thrown e →
  let run := delegatedHandler E id targetPath gluedPath rxPropName resolver
               fieldProps delegatedField w in
  run.1 = Thrown e
  ∧ subscriptions run.2 = filter (λ entry, entry.1 ≠ id) (subscriptions w)
  ∧ ∃ es,
      Forall diagnostic es
      ∧ trace run.2 =
        trace w ++ [Unsubscribed id; Logged LogDelegatedAnalysis] ++ es.
Proof.
  intros Hanalysis run.
  destruct (delegatedHandler_throws E id targetPath gluedPath rxPropName
              resolver fieldProps delegatedField w e Hanalysis)
    as (es & Hes & Hrun).
  unfold run. rewrite Hrun. cbn. split_and!; [done..|]. by exists es.
Qed.


(** ** Change observers over the life of a form *)

Lemma comesAfter_refl w : tidy w → comesAfter w w.
Proof. intros Hw. by split_and!. Qed.

Lemma comesAfter_trans w0 w1 w2 :
  comesAfter w0 w1 → comesAfter w1 w2 → comesAfter w0 w2.
Proof.
  intros (Hle1 & _ & Hold1 & Hobs1) (Hle2 & Htidy & Hold2 & Hobs2).
  split_and!; [lia | done | |].
  - intros entry Hin Hlt. apply Hold1; [|done]. apply Hold2; [done | lia].
  - intros entry Hin Hobs. apply Hobs2; [by apply Hobs1 | done].
Qed.

Lemma comesAfter_addTrace w0 es w :
  comesAfter w0 w → comesAfter w0 (addTrace es w).
Proof. by intros (? & [? ?] & ? & ?). Qed.

Lemma comesAfter_emitEffect w0 e : keeps (comesAfter w0) (emitEffect e).
Proof. intros w Hw. by apply (comesAfter_addTrace w0 [e]). Qed.

Lemma comesAfter_analyzeResolver w0 rxPropName resolver fieldProps fields :
  keeps (comesAfter w0) (analyzeResolver rxPropName resolver fieldProps fields).
Proof.
  intros w Hw.
  destruct (analyzeResolver_frame rxPropName resolver fieldProps fields
              (state_fields w) (context w)) as (r & es & Hes & Hrun).
  rewrite Hrun by done. by apply comesAfter_addTrace.
Qed.

Lemma comesAfter_next w0 E subscription event :
  keeps (comesAfter w0) (next E subscription event).
Proof.
  intros w Hw. destruct subscription as [targetPath ? rxPropName resolver fp|];
    [|done].
  cbn [next].
  destruct (observerHandler_quiet E targetPath rxPropName resolver fp event w)
    as (es & Hes & ->).
  by apply comesAfter_addTrace.
Qed.

Lemma comesAfter_addSubscription w0 s : keeps (comesAfter w0) (addSubscription s).
Proof.
  intros w (Hle & [Hnodup Hids] & Hold & Hobs).
  unfold addSubscription. cbn [snd].
  split_and!; unfold tidy; cbn [subscriptions next_id].
  - lia.
  - split.
    + rewrite fmap_app. apply NoDup_app. split_and!; [done | | apply NoDup_singleton].
      intros id Hin Hnew. cbn in Hnew. apply list_elem_of_singleton in Hnew.
      subst id. apply Hids in Hin. lia.
    + intros id. rewrite fmap_app, elem_of_app. cbn.
      intros [Hin | ->%list_elem_of_singleton]; [apply Hids in Hin|]; lia.
  - intros entry [Hin | ->%list_elem_of_singleton]%elem_of_app Hlt;
      [by apply Hold | cbn in Hlt; lia].
  - intros entry Hin Hobserver. apply elem_of_app. left. by apply Hobs.
Qed.

Lemma comesAfter_createObserver w0 targetPath targetProps rxPropName resolver
    fieldProps :
  keeps (comesAfter w0)
    (createObserver targetPath targetProps rxPropName resolver fieldProps).
Proof.
  unfold createObserver.
  apply keeps_bind; [apply comesAfter_addSubscription | intros _; apply keeps_ret].
Qed.

Lemma NoDup_fst_unique (entries : list (nat * Subscription)) id s s' :
  NoDup entries.*1 → (id, s) ∈ entries → (id, s') ∈ entries → s = s'.
Proof.
  induction entries as [|[i x] entries IH]; cbn; [by intros _ ?%elem_of_nil|].
  intros [Hnotin Hnodup]%NoDup_cons.
  intros [Heq | Hin]%elem_of_cons [Heq' | Hin']%elem_of_cons.
  - congruence.
  - exfalso. injection Heq as -> ->. apply Hnotin.
    apply list_elem_of_fmap. by exists (i, s').
  - exfalso. injection Heq' as -> ->. apply Hnotin.
    apply list_elem_of_fmap. by exists (i, s).
  - by apply IH.
Qed.

Lemma comesAfter_unsubscribe w0 id delegated w :
  tidy w0 →
  (id, delegated) ∈ subscriptions w0 →
  ¬ isObserver delegated →
  comesAfter w0 w → comesAfter w0 (unsubscribe id w).2.
Proof.
  intros [Hnodup0 _] Hin0 Hdelegated (Hle & [Hnodup Hids] & Hold & Hobs).
  rewrite unsubscribe_run. cbn [snd].
  split_and!; unfold tidy; cbn [subscriptions next_id].
  - done.
  - split.
    + eapply sublist_NoDup; [exact Hnodup|].
      apply fmap_sublist, sublist_filter.
    + intros other ([i s] & -> & [_ Hentry]%list_elem_of_filter)%list_elem_of_fmap.
      apply Hids. apply list_elem_of_fmap. by exists (i, s).
  - intros entry [_ Hin]%list_elem_of_filter Hlt. by apply Hold.
  - intros [i s] Hin Hobserver. apply list_elem_of_filter. split; [|by apply Hobs].
    cbn. intros ->. apply Hdelegated.
    by rewrite <- (NoDup_fst_unique _ _ _ _ Hnodup0 Hin Hin0).
Qed.

Lemma comesAfter_delegatedHandler w0 E id eventName targetPath gluedPath
    rxPropName resolver fieldProps delegatedField :
  tidy w0 →
  (id, DelegatedSubscription eventName targetPath gluedPath rxPropName resolver
         fieldProps) ∈ subscriptions w0 →
  keeps (comesAfter w0)
    (delegatedHandler E id targetPath gluedPath rxPropName resolver fieldProps
       delegatedField).
Proof.
  intros Htidy Hin w Hw. unfold delegatedHandler.
  rewrite bind_run.
  pose proof (comesAfter_unsubscribe w0 id _ w Htidy Hin (λ H, H) Hw) as Hw1.
  destruct (unsubscribe id w) as [[[]|e] w1]; [|done]. cbn [snd] in Hw1.
  revert w1 Hw1. apply keeps_bind; [apply comesAfter_emitEffect|].
  intros _. apply keeps_bind; [by intros w1|]. intros nextFields.
  apply keeps_bind; [apply comesAfter_analyzeResolver|]. intros analysis.
  apply keeps_bind; [apply comesAfter_createObserver|]. intros subscription.
  apply comesAfter_next.
Qed.

Lemma comesAfter_emit E eventName payload w :
  tidy w → comesAfter w (emit E eventName payload w).2.
Proof.
  intros Htidy. unfold emit. rewrite bind_run. unfold gets at 1. cbn beta iota.
  apply (keeps_forEach (comesAfter w)); [|by apply comesAfter_refl].
  intros [id subscription] Hin w' Hw'. cbn [fst snd].
  destruct subscription as [|event targetPath gluedPath rxPropName resolver fp];
    [done|].
  rewrite bind_run. unfold gets. cbn beta iota.
  destruct (String.eqb event eventName && isSubscribed id w'); [|done].
  by eapply comesAfter_delegatedHandler.
Qed.

Lemma comesAfter_createSubscriptions w0 E subscriber fields :
  keeps (comesAfter w0) (createSubscriptions E subscriber fields).
Proof.
  unfold createSubscriptions.
  destruct (reactiveProps subscriber) as [rxProps|]; [|apply keeps_ret].
  apply keeps_forEach. intros entry _. unfold wireReactiveProp.
  apply keeps_bind; [apply comesAfter_analyzeResolver|]. intros analysis.
  apply keeps_bind; [apply comesAfter_emitEffect|]. intros _.
  apply keeps_bind; [apply comesAfter_emitEffect|]. intros _.
  destruct (_ =? _)%nat; [apply keeps_ret|].
  apply keeps_forEach. intros gluedPath _. unfold wireTarget.
  destruct (Immutable.hasIn _ _).
  - apply keeps_bind; [apply comesAfter_createObserver | intros _; apply keeps_ret].
  - apply keeps_bind; [apply comesAfter_addSubscription | intros _; apply keeps_ret].
Qed.

Lemma comesAfter_react E event w : tidy w → comesAfter w (react E event w).2.
Proof.
  intros Htidy. destruct event; cbn [react].
  - unfold modify. cbn [snd]. destruct Htidy as [? ?]. by split_and!.
  - by apply comesAfter_createSubscriptions, comesAfter_refl.
  - by apply comesAfter_emit.
  - unfold propsChange. apply keeps_bind; [by intros w' | | by apply comesAfter_refl].
    intros listeners. apply keeps_forEach. intros entry _.
    destruct (receives _ _ _ _); [apply comesAfter_next | apply keeps_ret].
Qed.

Lemma comesAfter_reactAll E events w :
  tidy w → comesAfter w (reactAll E events w).
Proof.
  revert w. induction events as [|event events IH]; intros w Htidy;
    [by apply comesAfter_refl|].
  cbn. pose proof (comesAfter_react E event w Htidy) as Hstep.
  eapply comesAfter_trans; [exact Hstep|]. apply IH. by destruct Hstep as (_ & ? & _).
Qed.

(** X12.  A change observer is never unsubscribed: once it is among the
    subscriptions of a form, it stays there whatever happens to the form
    afterwards. *)
Theorem X12_change_observers_are_never_removed E earlier later fields ctx id
    targetPath targetProps rxPropName resolver fieldProps :
  let observer := ChangeObserver targetPath targetProps rxPropName resolver
                    fieldProps in
  (id, observer) ∈ subscriptions (reactAll E earlier (newForm fields ctx)) →
  (id, observer)
  ∈ subscriptions (reactAll E (earlier ++ later) (newForm fields ctx)).
Proof.
  intros observer Hin. unfold reactAll. rewrite foldl_app.
  fold (reactAll E earlier (newForm fields ctx)).
  fold (reactAll E later (reactAll E earlier (newForm fields ctx))).
  assert (tidy (newForm fields ctx)) as Hnew.
  { split; cbn; [constructor | by intros ? ?%elem_of_nil]. }
  destruct (comesAfter_reactAll E earlier _ Hnew) as (_ & Htidy & _).
  destruct (comesAfter_reactAll E later _ Htidy) as (_ & _ & _ & Hobs).
  by apply (Hobs (id, observer)).
Qed.

(** ** Radio fields *)


(** X14.  [mapPropsToField] passes every prop on as it is, but [value] and
    [initialValue]; and [initialValue] is the radio's value exactly when the
    radio is checked with a truthy value, and is passed on as it is
    otherwise. *)
Theorem X14_radio_passes_other_props_on props :
  let fieldProps := Radio.mapPropsToField props in
  (∀ key, key ≠ "value" → key ≠ "initialValue" →
          fieldProps !! key = props !! key)
  ∧ (fieldProps !! "initialValue" =
     if truthy (Radio.prop props "checked") && truthy (Radio.prop props "value")
     then Some (Radio.prop props "value")
     else props !! "initialValue").
Proof.
  cbn zeta. unfold Radio.mapPropsToField.
  destruct (truthy (Radio.prop props "checked")) eqn:Hchecked; cbn [andb].
  - assert (props !! "checked" = Some (Radio.prop props "checked")) as Hown.
    { unfold Radio.prop in *. by destruct (props !! "checked"). }
    destruct (truthy (Radio.prop props "value")) eqn:Hvalue.
    + split.
      * intros key Hvalue' Hinitial.
        rewrite lookup_delete_ne, lookup_insert_ne by done.
        destruct (decide (key = "checked")) as [->|Hne].
        -- by rewrite lookup_insert_eq.
        -- by rewrite !lookup_insert_ne.
      * by rewrite lookup_delete_ne, lookup_insert_eq.
    + split.
      * intros key Hvalue' Hinitial.
        destruct (decide (key = "checked")) as [->|Hne].
        -- by rewrite lookup_insert_eq.
        -- by rewrite !lookup_insert_ne.
      * by rewrite !lookup_insert_ne.
  - split.
    + intros key Hvalue' Hinitial. by rewrite lookup_insert_ne.
    + by rewrite lookup_insert_ne.
Qed.

(** ** Instances of the further properties *)

Lemma X2_recorded_lists_not_empty_witness : ["value"] ≠ ([] : list string).
Proof.
  refine (X2_recorded_lists_not_empty "label" Sample.readsValue Sample.fieldB
            Sample.fieldsWithA (newForm Sample.fieldsWithA JNull)
            {[ "a" := ["value"] ]} (JStr "x") _ "a" ["value"] _ _).
  - vm_compute. reflexivity.
  - vm_compute. reflexivity.
Defined.




Lemma X6_observer_failure_is_swallowed_witness :
  let leaf := newForm Cases.fieldsWithLeafA JNull in
  let w := newForm Sample.fieldsWithA JNull in
  next Sample.collaborators
    (ChangeObserver ["a"; "b"] (Some ["value"]) "label" Sample.readsValue
       Sample.fieldB) Cases.changeToZ leaf
  = (Ok tt, addTrace [Rejected InvalidKeyPathError] leaf)
  ∧ next Sample.collaborators
      (ChangeObserver ["a"] (Some ["value"]) "label" Cases.throws Sample.fieldB)
      Cases.changeToZ w
    = (Ok tt,
       addTrace [Dispatched false (JMap [("a", JMap [("value", JStr "z")])])
                   (liveArgs Sample.fieldB w);
                 Rejected ResolverError] w).
Proof.
  split.
  - apply (proj1 (X6_observer_failure_is_swallowed Sample.collaborators
                    ["a"; "b"] (Some ["value"]) "label" Sample.readsValue
                    Sample.fieldB Cases.changeToZ
                    (newForm Cases.fieldsWithLeafA JNull))).
    reflexivity.
  - apply (proj2 (X6_observer_failure_is_swallowed Sample.collaborators
                    ["a"] (Some ["value"]) "label" Cases.throws
                    Sample.fieldB Cases.changeToZ
                    (newForm Sample.fieldsWithA JNull))).
    + reflexivity.
    + reflexivity.
Defined.

Lemma X7_observer_tree_differs_at_target_witness :
  let nextFields :=
    JMap [("a", JMap [("value", JStr "z")]); ("c", JMap [("value", JStr "y")])] in
  Immutable.getIn nextFields ["a"; "value"] = JStr "z"
  ∧ Immutable.getIn nextFields ["c"; "value"] = JStr "y".
Proof.
  pose proof (X7_observer_tree_differs_at_target
                (JMap [("a", JMap [("value", JStr "x")]);
                       ("c", JMap [("value", JStr "y")])])
                ["a"] (JMap [("value", JStr "z")])
                (JMap [("a", JMap [("value", JStr "z")]);
                       ("c", JMap [("value", JStr "y")])])
                eq_refl) as [Hat Hoff].
  split.
  - apply (Hat ["value"]).
  - destruct (Hoff ["c"; "value"]) as [-> _]; [|reflexivity].
    exists [], "a", "c", [], ["value"]. by split_and!.
Defined.

Lemma X8_observer_of_mounted_target_dispatches_witness :
  let w := newForm Sample.fieldsWithA JNull in
  ∃ nextFields rest,
    Immutable.setIn (state_fields w) ["a"] (nextContextProps Cases.changeToZ)
      = Some nextFields
    ∧ newEffects w
        (next Sample.collaborators
           (ChangeObserver ["a"] (Some ["value"]) "label" Cases.throws
              Sample.fieldB) Cases.changeToZ w).2
      = Dispatched false nextFields (liveArgs Sample.fieldB w) :: rest.
Proof.
  apply (X8_observer_of_mounted_target_dispatches Sample.collaborators ["a"]
           (Some ["value"]) "label" Cases.throws Sample.fieldB Cases.changeToZ
           (newForm Sample.fieldsWithA JNull)).
  reflexivity.
Defined.


Lemma X10_delegated_throw_drops_subscription_witness :
  let w := Sample.formAfterRegistration Cases.throws Sample.fieldB in
  let run := delegatedHandler Sample.collaborators 0 ["a"] "a" "label"
               Cases.throws Sample.fieldB (JMap [("value", JStr "x")]) w in
  run.1 = Thrown ResolverError ∧ subscriptions run.2 = [].
Proof.
  destruct (X10_delegated_throw_drops_subscription Sample.collaborators 0 ["a"]
              "a" "label" Cases.throws Sample.fieldB
              (JMap [("value", JStr "x")])
              (Sample.formAfterRegistration Cases.throws Sample.fieldB)
              ResolverError) as (Hthrown & Hsubs & _).
  - vm_compute. reflexivity.
  - split; [exact Hthrown|]. rewrite Hsubs. vm_compute. reflexivity.
Defined.


Lemma X12_change_observers_are_never_removed_witness :
  (0, ChangeObserver ["a"] (Some ["value"]) "label" Sample.readsValue
        Sample.fieldB)
  ∈ subscriptions
      (reactAll Sample.collaborators
         (Cases.mountedRegistration ++ Sample.lateRegistration)
         (newForm Sample.fieldsWithA JNull)).
Proof.
  apply (X12_change_observers_are_never_removed Sample.collaborators
           Cases.mountedRegistration Sample.lateRegistration
           Sample.fieldsWithA JNull 0 ["a"] (Some ["value"]) "label"
           Sample.readsValue Sample.fieldB).
  vm_compute. by left.
Defined.

Lemma X14_radio_passes_other_props_on_witness :
  Radio.mapPropsToField Cases.checkedRadio !! "name" = Some (JStr "color")
  ∧ Radio.mapPropsToField Cases.checkedRadio !! "initialValue"
    = Some (JStr "red").
Proof.
  destruct (X14_radio_passes_other_props_on Cases.checkedRadio)
    as [Hother Hinitial].
  split.
  - rewrite (Hother "name") by done. by vm_compute.
  - rewrite Hinitial. by vm_compute.
Defined.
